(** * html-to-image: the recursive clone of a live DOM subtree

    A shallow embedding of [src/clone-node.ts].  The live document is a
    tree of source nodes carrying the state the code reads (attributes,
    canvas pixels, video source, form values, nested documents); a clone
    is a detached tree.  Asynchronous functions are computations in a
    small monad that records the tree of [cloneNode] calls and ends in a
    value, a rejection, or a promise that never settles. *)

From Stdlib Require Import String Ascii List Bool Arith ZArith Lia.
Import ListNotations.
Open Scope string_scope.
Open Scope list_scope.

Set Warnings "-register-all".

(** ** Nodes *)

(** The DOM interface an element implements, as far as
    [isInstanceOfElement] is asked about it in this file. *)
Inductive Category :=
| HTMLCanvasElement
| HTMLVideoElement
| HTMLIFrameElement
| HTMLTextAreaElement
| HTMLInputElement
| HTMLSelectElement
| HTMLImageElement
| OtherElement.

Definition Category_eqb (a b : Category) : bool :=
  match a, b with
  | HTMLCanvasElement, HTMLCanvasElement
  | HTMLVideoElement, HTMLVideoElement
  | HTMLIFrameElement, HTMLIFrameElement
  | HTMLTextAreaElement, HTMLTextAreaElement
  | HTMLInputElement, HTMLInputElement
  | HTMLSelectElement, HTMLSelectElement
  | HTMLImageElement, HTMLImageElement
  | OtherElement, OtherElement => true
  | _, _ => false
  end.

(** What a shallow structural clone copies: namespace, name, attributes. *)
Record Elem := mkElem {
  namespaceURI : string;
  localName : string;
  interface : Category;
  attributes : list (string * string)
}.

(** One style declaration: property name, value, priority. *)
Definition Decl : Type := string * string * string.

Record ComputedStyle := mkComputed {
  cs_cssText : string;
  cs_transformOrigin : string;
  cs_props : list Decl
}.

(** The live state of a source element that the clone reads. *)
Record Live := mkLive {
  toDataURL : string;          (* canvas.toDataURL() *)
  currentSrc : string;         (* video.currentSrc *)
  poster : string;             (* video.poster *)
  clientWidth : Z;
  clientHeight : Z;
  value : string;              (* textarea / input / select .value *)
  computedStyle : ComputedStyle
}.

(** What reading [iframe.contentDocument?.body] can do. *)
Inductive DocAccess (A : Type) :=
| AccessThrows
| NoDocument
| NoBody
| HasBody (body : A).
Arguments AccessThrows {A}.
Arguments NoDocument {A}.
Arguments NoBody {A}.
Arguments HasBody {A} body.

(** A node of the live document.  [shadowRoot] holds the child nodes of an
    attached shadow root; [assignedNodes] is [None] when the node has no
    such method. *)
Inductive SNode :=
| SText (data : string)
| SElem (el : Elem) (live : Live) (childNodes : list SNode)
        (shadowRoot : option (list SNode))
        (assignedNodes : option (list SNode))
        (contentDocument : DocAccess SNode).

(** The inline style of a clone, as the code writes it: the text last
    assigned to [cssText] and, for each property set after it, the value
    and priority last assigned.  What the platform's style parser keeps of
    an assigned value (dropping an invalid one, removing a property set to
    the empty string, normalising) is not part of the record. *)
Record InlineStyle := mkStyle {
  cssText : string;
  decls : list Decl
}.

(** A node of the detached clone tree. *)
Inductive CNode :=
| CText (data : string)
| CElem (el : Elem) (style : InlineStyle) (children : list CNode).

(** ** Options, failures, computations *)

(** Modelled from the spec: the [Options] type of [./types] (not part of
    the source at hand): an optional exclusion predicate and pass-through
    configuration for the external collaborators. *)
Record Options := mkOptions {
  filter : option (SNode -> bool);
  passThrough : list (string * string)
}.

(** The object literal [{}]. *)
Definition emptyOptions : Options := mkOptions None [].

Inductive Error :=
| SecurityError
| ResourceError (reason : string)
| TypeError.

(** How a promise ends: fulfilled, rejected, or never settled. *)
Inductive Outcome (A : Type) :=
| Ok (a : A)
| Throw (e : Error)
| Diverge.
Arguments Ok {A} a.
Arguments Throw {A} e.
Arguments Diverge {A}.

(** One [cloneNode] invocation: its arguments, whether the exclusion
    predicate was consulted for [node], how it ended, and the invocations
    made underneath it. *)
Inductive CallTree :=
| Call (node : SNode) (options : Options) (isRoot : option bool)
       (asked : bool) (res : Outcome (option CNode)) (sub : list CallTree).

Definition c_node (c : CallTree) := let 'Call n _ _ _ _ _ := c in n.
Definition c_options (c : CallTree) := let 'Call _ o _ _ _ _ := c in o.
Definition c_isRoot (c : CallTree) := let 'Call _ _ r _ _ _ := c in r.
Definition c_asked (c : CallTree) := let 'Call _ _ _ a _ _ := c in a.
Definition c_res (c : CallTree) := let 'Call _ _ _ _ r _ := c in r.
Definition c_sub (c : CallTree) := let 'Call _ _ _ _ _ s := c in s.

(** Every invocation of a forest, each before the ones underneath it. *)
Fixpoint allCalls (c : CallTree) : list CallTree :=
  c :: flat_map allCalls (c_sub c).

Definition Trace := list CallTree.

Definition M (A : Type) : Type := Trace * Outcome A.

Definition ret {A} (a : A) : M A := ([], Ok a).
Definition throw {A} (e : Error) : M A := ([], Throw e).
Definition diverge {A} : M A := ([], Diverge).

Definition bind {A B} (m : M A) (k : A -> M B) : M B :=
  match m with
  | (t, Ok a) => let '(t', r) := k a in (t ++ t', r)
  | (t, Throw e) => (t, Throw e)
  | (t, Diverge) => (t, Diverge)
  end.

Notation "x <- m ;; k" := (bind m (fun x => k))
  (at level 61, m at next level, right associativity).

(** [try { m } catch { h }]: a rejection is handled, a promise that never
    settles stays so. *)
Definition tryCatch {A} (m : M A) (h : Error -> M A) : M A :=
  match m with
  | (t, Throw e) => let '(t', r) := h e in (t ++ t', r)
  | other => other
  end.

Definition lift {A} (o : Outcome A) : M A := ([], o).

Definition trace {A} (m : M A) : Trace := fst m.
Definition outcome {A} (m : M A) : Outcome A := snd m.

(** *** Promise.all *)

(** The rejection that settles first: [order] lists promise indices in the
    order they settle; whatever it leaves out settles afterwards, by index. *)
Fixpoint firstRejection {A} (outs : list (Outcome A)) (order : list nat)
  : option Error :=
  match order with
  | [] => None
  | i :: rest =>
      match nth_error outs i with
      | Some (Throw e) => Some e
      | _ => firstRejection outs rest
      end
  end.

(** All values, in the order of the promises, when every one is fulfilled. *)
Fixpoint allValues {A} (outs : list (Outcome A)) : option (list A) :=
  match outs with
  | [] => Some []
  | Ok a :: rest =>
      match allValues rest with
      | Some l => Some (a :: l)
      | None => None
      end
  | _ :: _ => None
  end.

Definition joinAll {A} (order : list nat) (outs : list (Outcome A))
  : Outcome (list A) :=
  match firstRejection outs (order ++ seq 0 (length outs)) with
  | Some e => Throw e
  | None =>
      match allValues outs with
      | Some l => Ok l
      | None => Diverge
      end
  end.

(** Every promise has been started (its invocations are recorded, in the
    order [map] started them) before the join is awaited. *)
Definition promiseAll {A} (order : list nat) (ps : list (M A)) : M (list A) :=
  (flat_map trace ps, joinAll order (map outcome ps)).

(** ** The DOM operations the code calls *)

Definition xhtml : string := "http://www.w3.org/1999/xhtml".

Definition truthy (s : string) : bool := negb (s =? "").

Definition upcase (c : ascii) : ascii :=
  let n := nat_of_ascii c in
  if ((97 <=? n)%nat && (n <=? 122)%nat)%bool then ascii_of_nat (n - 32) else c.

Fixpoint toUpperCase (s : string) : string :=
  match s with
  | EmptyString => EmptyString
  | String c rest => String (upcase c) (toUpperCase rest)
  end.

(** [value.endsWith(suffix)] *)
Definition endsWith (s suffix : string) : bool :=
  let n := String.length s in
  let k := String.length suffix in
  ((k <=? n)%nat && (substring (n - k) k s =? suffix))%bool.

(** [tagName]: upper case for an element of the XHTML namespace. *)
Definition tagName (el : Elem) : string :=
  if namespaceURI el =? xhtml then toUpperCase (localName el)
  else localName el.

Fixpoint getAttr (name : string) (attrs : list (string * string))
  : option string :=
  match attrs with
  | [] => None
  | (n, v) :: rest => if n =? name then Some v else getAttr name rest
  end.

Fixpoint setAttr (name v : string) (attrs : list (string * string))
  : list (string * string) :=
  match attrs with
  | [] => [(name, v)]
  | (n, x) :: rest =>
      if n =? name then (name, v) :: rest else (n, x) :: setAttr name v rest
  end.

Definition getAttribute (name : string) (c : CNode) : option string :=
  match c with
  | CElem el _ _ => getAttr name (attributes el)
  | CText _ => None
  end.

Definition setAttribute (name v : string) (c : CNode) : CNode :=
  match c with
  | CElem el st ch =>
      CElem (mkElem (namespaceURI el) (localName el) (interface el)
                    (setAttr name v (attributes el))) st ch
  | CText d => CText d
  end.

Definition hasAttribute (name : string) (c : CNode) : bool :=
  match getAttribute name c with Some _ => true | None => false end.

Fixpoint setDecl (name v prio : string) (ds : list Decl) : list Decl :=
  match ds with
  | [] => [(name, v, prio)]
  | (n, x, p) :: rest =>
      if n =? name then (name, v, prio) :: rest
      else (n, x, p) :: setDecl name v prio rest
  end.

(** [style.setProperty(name, v, prio)] and [style.name = v]: the
    assignment is recorded as made. *)
Definition setProperty (name v prio : string) (c : CNode) : CNode :=
  match c with
  | CElem el st ch => CElem el (mkStyle (cssText st) (setDecl name v prio (decls st))) ch
  | CText d => CText d
  end.

(** [style.cssText = text]: the whole inline style is replaced. *)
Definition setCssText (text : string) (c : CNode) : CNode :=
  match c with
  | CElem el _ ch => CElem el (mkStyle text []) ch
  | CText d => CText d
  end.

Definition isElement (c : CNode) : bool :=
  match c with CElem _ _ _ => true | CText _ => false end.

Definition childrenOf (c : CNode) : list CNode :=
  match c with CElem _ _ ch => ch | CText _ => [] end.

Definition elemOf (c : CNode) : option Elem :=
  match c with CElem el _ _ => Some el | CText _ => None end.

(** Modelled from the spec: [isInstanceOfElement] of [./util] (not part of
    the source at hand), the test of a node against one of the closed set
    of categories of the design notes. *)
Definition isInstanceOfElement (node : SNode) (c : Category) : bool :=
  match node with
  | SElem el _ _ _ _ _ => Category_eqb (interface el) c
  | SText _ => false
  end.

Definition isCategory (c : CNode) (k : Category) : bool :=
  match c with
  | CElem el _ _ => Category_eqb (interface el) k
  | CText _ => false
  end.

(** [node.cloneNode(false)]: the node itself, without children; the inline
    style starts from the copied [style] attribute, and from then on the
    record alone stands for it: the copied attribute is not kept in step
    with what is assigned to the style. *)
Definition shallowClone (node : SNode) : CNode :=
  match node with
  | SText d => CText d
  | SElem el _ _ _ _ _ =>
      CElem el
            (mkStyle (match getAttr "style" (attributes el) with
                      | Some s => s
                      | None => ""
                      end) [])
            []
  end.

(** [parent.append(child)] / [parent.appendChild(child)]: a node that is
    not an element cannot take children, and [null] is not a node. *)
Definition appendChild (parent : CNode) (child : option CNode) : Outcome CNode :=
  match parent, child with
  | CElem el st ch, Some c => Ok (CElem el st (ch ++ [c]))
  | _, _ => Throw TypeError
  end.

Definition createElementNS (ns name : string) : CNode :=
  CElem (mkElem ns name OtherElement []) (mkStyle "" []) [].

(** Modelled from the spec: [createImage] of [./util] (not part of the
    source at hand), the image-construction collaborator
    [(dataUrl) -> Promise<ImageNode>]: an image node showing [dataUrl]. *)
Definition createImage (dataURL : string) : M CNode :=
  ret (CElem (mkElem xhtml "img" HTMLImageElement [("src", dataURL)])
             (mkStyle "" []) []).

(** *** Selectors *)

(** A node and everything under it, in document order. *)
Fixpoint subtree (c : CNode) : list CNode :=
  c :: match c with
       | CElem _ _ ch => flat_map subtree ch
       | CText _ => []
       end.

Definition descendants (c : CNode) : list CNode :=
  flat_map subtree (childrenOf c).

Fixpoint subtreeS (n : SNode) : list SNode :=
  n :: match n with
       | SElem _ _ kids _ _ _ => flat_map subtreeS kids
       | SText _ => []
       end.

(** The platform's selector matching, for the references the model
    covers.  The code hands the [xlink:href] of a use element to
    [querySelector] as it is; a reference [#name] selects the elements
    whose [id] is [name].  A reference of another form is taken here to
    select nothing: the platform reads it as a selector of its own form or
    raises on it, which the model does not follow ([plainReference] says
    which references are covered). *)
Definition matchesId (sel : string) (el : Elem) : bool :=
  match sel with
  | String "#" name =>
      truthy name &&
      match getAttr "id" (attributes el) with
      | Some i => i =? name
      | None => false
      end
  | _ => false
  end.

Definition matchesIdC (sel : string) (c : CNode) : bool :=
  match c with CElem el _ _ => matchesId sel el | CText _ => false end.

Definition matchesIdS (sel : string) (n : SNode) : bool :=
  match n with SElem el _ _ _ _ _ => matchesId sel el | SText _ => false end.

(** [clone.querySelector(id)] *)
Definition querySelector (sel : string) (clone : CNode) : option CNode :=
  find (matchesIdC sel) (descendants clone).

(** [clone.querySelectorAll ? clone.querySelectorAll(name) : []], for a
    type selector. *)
Definition querySelectorAll (name : string) (clone : CNode) : list CNode :=
  List.filter (fun c => match c with
                   | CElem el _ _ => localName el =? name
                   | CText _ => false
                   end)
         (descendants clone).

(** ** The world outside this file *)

Record Env := mkEnv {
  (* the child nodes of the live [document] *)
  document : list SNode;
  (* ./mimes *)
  getMimeType : string -> string;
  (* ./dataurl: may reject *)
  resourceToDataURL : string -> string -> Options -> Outcome string;
  (* the data URL of an offscreen canvas of the given size after the
     video's current frame has been drawn on it *)
  drawImage : Live -> Z -> Z -> string;
  (* ./clone-pseudos *)
  clonePseudoElements : SNode -> CNode -> CNode;
  (* Math.floor(Number.parseFloat(s)) - 0.1, printed *)
  reducedFont : string -> string;
  (* whether an element of this kind has a [style] object *)
  hasStyle : Elem -> bool;
  (* the text the HTML parser makes of a string assigned to the
     [innerHTML] of a text area (character references decoded) *)
  parsedText : string -> string;
  (* the order in which the clones of a node's children settle *)
  settleOrder : SNode -> list nat
}.

(** [document.querySelector(id)] *)
Definition documentQuerySelector (E : Env) (sel : string) : option SNode :=
  find (matchesIdS sel) (flat_map subtreeS (document E)).

(** ** clone-node.ts *)

Definition liveOf (node : SNode) : option Live :=
  match node with
  | SElem _ lv _ _ _ _ => Some lv
  | SText _ => None
  end.

Definition contentDocumentBody (node : SNode) : DocAccess SNode :=
  match node with
  | SElem _ _ _ _ _ doc => doc
  | SText _ => NoDocument
  end.

Definition childNodesOf (node : SNode) : list SNode :=
  match node with
  | SElem _ _ kids _ _ _ => kids
  | SText _ => []
  end.

Definition isTrue (isRoot : option bool) : bool :=
  match isRoot with Some true => true | _ => false end.

(** [!isRoot && options.filter && !options.filter(node)] *)
Definition rejected (node : SNode) (options : Options) (isRoot : option bool)
  : bool :=
  negb (isTrue isRoot) &&
  match filter options with
  | Some f => negb (f node)
  | None => false
  end.

(** Whether that test reaches [options.filter(node)]. *)
Definition consulted (options : Options) (isRoot : option bool) : bool :=
  negb (isTrue isRoot) &&
  match filter options with Some _ => true | None => false end.

Definition recorded (node : SNode) (options : Options) (isRoot : option bool)
  (m : M (option CNode)) : M (option CNode) :=
  ([Call node options isRoot (consulted options isRoot) (outcome m) (trace m)],
   outcome m).

Section Clone.

Variable E : Env.

Section Body.

(** The function being defined, for the calls it makes to itself. *)
Variable cloneNode : SNode -> Options -> option bool -> M (option CNode).

Definition cloneCanvasElement (canvas : SNode) : M CNode :=
  match liveOf canvas with
  | None => throw TypeError
  | Some lv =>
      let dataURL := toDataURL lv in
      if dataURL =? "data:," then ret (shallowClone canvas)
      else createImage dataURL
  end.

Definition cloneVideoElement (video : SNode) (options : Options) : M CNode :=
  match liveOf video with
  | None => throw TypeError
  | Some lv =>
      if truthy (currentSrc lv) then
        let dataURL := drawImage E lv (clientWidth lv) (clientHeight lv) in
        createImage dataURL
      else
        let poster := poster lv in
        let contentType := getMimeType E poster in
        dataURL <- lift (resourceToDataURL E poster contentType options) ;;
        createImage dataURL
  end.

(** The result is what the awaited call gave (which the code casts to a
    body element) or the shallow clone of the iframe. *)
Definition cloneIFrameElement (iframe : SNode) : M (option CNode) :=
  returned <-
    tryCatch
      (match contentDocumentBody iframe with
       | AccessThrows => throw SecurityError
       | HasBody body =>
           c <- cloneNode body emptyOptions (Some true) ;;
           ret (Some c)
       | NoDocument | NoBody => ret None
       end)
      (fun _ => ret None) ;;
  match returned with
  | Some c => ret c
  | None => ret (Some (shallowClone iframe))
  end.

Definition cloneSingleNode (node : SNode) (options : Options)
  : M (option CNode) :=
  if isInstanceOfElement node HTMLCanvasElement then
    c <- cloneCanvasElement node ;; ret (Some c)
  else if isInstanceOfElement node HTMLVideoElement then
    c <- cloneVideoElement node options ;; ret (Some c)
  else if isInstanceOfElement node HTMLIFrameElement then
    cloneIFrameElement node
  else ret (Some (shallowClone node)).

Definition isSlotElement (node : SNode) : bool :=
  match node with
  | SElem el _ _ _ _ _ => toUpperCase (tagName el) =? "SLOT"
  | SText _ => false
  end.

(** The child list [cloneChildren] settles on. *)
Definition resolvedChildren (nativeNode : SNode) : Outcome (list SNode) :=
  match nativeNode with
  | SText _ => Ok []
  | SElem el _ kids shadow assigned doc =>
      let own := match shadow with Some s => s | None => kids end in
      match isSlotElement nativeNode, assigned with
      | true, Some nodes => Ok nodes
      | _, _ =>
          if isInstanceOfElement nativeNode HTMLIFrameElement then
            match doc with
            | AccessThrows => Throw SecurityError
            | HasBody body => Ok (childNodesOf body)
            | NoDocument | NoBody => Ok own
            end
          else Ok own
      end
  end.

(** The loop [for (const clonedChild of clonedChildren)]. *)
Fixpoint appendAll (clonedNode : CNode) (clonedChildren : list (option CNode))
  : Outcome CNode :=
  match clonedChildren with
  | [] => Ok clonedNode
  | None :: rest => appendAll clonedNode rest
  | Some clonedChild :: rest =>
      match appendChild clonedNode (Some clonedChild) with
      | Ok clonedNode' => appendAll clonedNode' rest
      | other => other
      end
  end.

Definition cloneChildren (nativeNode : SNode) (clonedNode : CNode)
  (options : Options) : M CNode :=
  children <- lift (resolvedChildren nativeNode) ;;
  if (length children =? 0)%nat
     || isInstanceOfElement nativeNode HTMLVideoElement
  then ret clonedNode
  else
    clonedChildren <-
      promiseAll (settleOrder E nativeNode)
                 (map (fun child => cloneNode child options None) children) ;;
    lift (appendAll clonedNode clonedChildren).

(** The rewrites of [cloneCSSStyle]'s [switch (name)]. *)
Definition rewriteValue (nativeNode : SNode) (clonedNode : CNode)
  (name value : string) : string :=
  if name =? "font-size" then
    if endsWith value "px" then
      (reducedFont E (substring 0 (Nat.max 0 (String.length value - 2)) value)
       ++ "px")%string
    else value
  else if name =? "display" then
    if (value =? "inline") && isInstanceOfElement nativeNode HTMLIFrameElement
    then "block" else value
  else if name =? "d" then
    match getAttribute "d" clonedNode with
    | Some attribute =>
        if truthy attribute then ("path(" ++ attribute ++ ")")%string
        else value
    | None => value
    end
  else value.

(** [clonedNode.style], as far as it is there or not. *)
Definition targetStyle (clonedNode : CNode) : bool :=
  match clonedNode with
  | CElem el _ _ => hasStyle E el
  | CText _ => false
  end.

(** [window.getComputedStyle] raises on what is not an element. *)
Definition cloneCSSStyle (nativeNode : SNode) (clonedNode : CNode)
  : Outcome CNode :=
  if negb (targetStyle clonedNode) then Ok clonedNode
  else
    match liveOf nativeNode with
    | None => Throw TypeError
    | Some lv =>
        let sourceStyle := computedStyle lv in
        if truthy (cs_cssText sourceStyle) then
          Ok (setProperty "transform-origin" (cs_transformOrigin sourceStyle) ""
                (setCssText (cs_cssText sourceStyle) clonedNode))
        else
          Ok (fold_left
                (fun target '(name, value, prio) =>
                   setProperty name
                     (rewriteValue nativeNode clonedNode name value) prio target)
                (cs_props sourceStyle) clonedNode)
    end.

(** [clonedNode.innerHTML = text] on a text area: the text is parsed as
    the content of a text area, so that the children become the one text
    node the parser makes of it, or nothing when that is empty. *)
Definition setInnerHTML (text : string) (c : CNode) : CNode :=
  match c with
  | CElem el st _ =>
      CElem el st (if truthy (parsedText E text)
                   then [CText (parsedText E text)] else [])
  | CText d => CText d
  end.

Definition cloneInputValue (nativeNode : SNode) (clonedNode : CNode) : CNode :=
  let nativeValue :=
    match liveOf nativeNode with Some lv => value lv | None => "" end in
  let clonedNode :=
    if isInstanceOfElement nativeNode HTMLTextAreaElement
    then setInnerHTML nativeValue clonedNode else clonedNode in
  if isInstanceOfElement nativeNode HTMLInputElement
  then setAttribute "value" nativeValue clonedNode else clonedNode.

(** [find] over [clonedSelect.children] followed by [setAttribute] on the
    element found: the first element child whose [value] attribute is the
    native value receives [selected]; every other child is the same object
    as before. *)
Fixpoint selectOption (nativeValue : string) (children : list CNode)
  : list CNode :=
  match children with
  | [] => []
  | child :: rest =>
      match child, getAttribute "value" child with
      | CElem _ _ _, Some v =>
          if nativeValue =? v then setAttribute "selected" "" child :: rest
          else child :: selectOption nativeValue rest
      | _, _ => child :: selectOption nativeValue rest
      end
  end.

Definition cloneSelectValue (nativeNode : SNode) (clonedNode : CNode) : CNode :=
  if isInstanceOfElement nativeNode HTMLSelectElement then
    match liveOf nativeNode, clonedNode with
    | Some lv, CElem el st ch => CElem el st (selectOption (value lv) ch)
    | _, _ => clonedNode
    end
  else clonedNode.

Definition decorate (nativeNode : SNode) (clonedNode : CNode) : Outcome CNode :=
  if isElement clonedNode then
    match cloneCSSStyle nativeNode clonedNode with
    | Ok styled =>
        Ok (cloneSelectValue nativeNode
              (cloneInputValue nativeNode
                 (clonePseudoElements E nativeNode styled)))
    | other => other
    end
  else Ok clonedNode.

(** [processedDefs]: an object used as a map, its keys in insertion order.
    Every key written is a reference [#name], so no key meets a property
    the object inherits. *)
Definition Table : Type := list (string * option CNode).

(** [processedDefs[id]]: [None] for a missing key as for a [null] one,
    both being falsy. *)
Fixpoint tableGet (t : Table) (id : string) : option CNode :=
  match t with
  | [] => None
  | (k, v) :: rest => if k =? id then v else tableGet rest id
  end.

(** [processedDefs[id] = v] *)
Fixpoint tableSet (t : Table) (id : string) (v : option CNode) : Table :=
  match t with
  | [] => [(id, v)]
  | (k, x) :: rest =>
      if k =? id then (k, v) :: rest else (k, x) :: tableSet rest id v
  end.

(** [Object.values(processedDefs)] *)
Definition tableValues (t : Table) : list (option CNode) := map snd t.

Definition tableKeys (t : Table) : list string := map fst t.

(** The loop over [uses] of [ensureSVGSymbols]. *)
Fixpoint collectDefs (clone : CNode) (options : Options) (uses : list CNode)
  (processedDefs : Table) : M Table :=
  match uses with
  | [] => ret processedDefs
  | use :: rest =>
      match getAttribute "xlink:href" use with
      | Some id =>
          if truthy id then
            let exist := querySelector id clone in
            let definition := documentQuerySelector E id in
            match exist, definition, tableGet processedDefs id with
            | None, Some definition, None =>
                c <- cloneNode definition options (Some true) ;;
                collectDefs clone options rest (tableSet processedDefs id c)
            | _, _, _ => collectDefs clone options rest processedDefs
            end
          else collectDefs clone options rest processedDefs
      | None => collectDefs clone options rest processedDefs
      end
  end.

(** The loop [defs.appendChild(nodes[i])]. *)
Fixpoint appendNodes (defs : CNode) (nodes : list (option CNode))
  : Outcome CNode :=
  match nodes with
  | [] => Ok defs
  | n :: rest =>
      match appendChild defs n with
      | Ok defs' => appendNodes defs' rest
      | other => other
      end
  end.

(** The hidden container built when [nodes.length] is not zero. *)
Definition symbolContainer (nodes : list (option CNode)) : Outcome CNode :=
  let ns := "http://www.w3.org/1999/xhtml" in
  let svg := createElementNS ns "svg" in
  let svg := setAttribute "xmlns" ns svg in
  let svg := setProperty "position" "absolute" "" svg in
  let svg := setProperty "width" "0" "" svg in
  let svg := setProperty "height" "0" "" svg in
  let svg := setProperty "overflow" "hidden" "" svg in
  let svg := setProperty "display" "none" "" svg in
  let defs := createElementNS ns "defs" in
  match appendNodes defs nodes with
  | Ok defs => appendChild svg (Some defs)
  | other => other
  end.

Definition ensureSVGSymbols (clone : CNode) (options : Options) : M CNode :=
  let uses := if isElement clone then querySelectorAll "use" clone else [] in
  if (length uses =? 0)%nat then ret clone
  else
    processedDefs <- collectDefs clone options uses [] ;;
    let nodes := tableValues processedDefs in
    if negb (length nodes =? 0)%nat then
      svg <- lift (symbolContainer nodes) ;;
      lift (appendChild clone (Some svg))
    else ret clone.

(** The [then] chain of [cloneNode].  A [null] where a clone is expected
    makes the steps that follow raise; no root call yields one. *)
Definition cloneSteps (node : SNode) (options : Options) : M CNode :=
  c <- cloneSingleNode node options ;;
  match c with
  | None => throw TypeError
  | Some clonedNode =>
      clonedNode <- cloneChildren node clonedNode options ;;
      decorated <- lift (decorate node clonedNode) ;;
      ensureSVGSymbols decorated options
  end.

End Body.

(** [cloneNode], with [fuel] bounding the depth of the calls it makes to
    itself; at depth zero the promise is taken never to settle. *)
Fixpoint cloneNode (fuel : nat) (node : SNode) (options : Options)
  (isRoot : option bool) : M (option CNode) :=
  recorded node options isRoot
    (if rejected node options isRoot then ret None
     else
       match fuel with
       | O => diverge
       | S fuel' =>
           c <- cloneSteps (cloneNode fuel') node options ;;
           ret (Some c)
       end).

End Clone.

(** ** Vocabulary of the properties *)

(** The arguments of one recorded invocation. *)
Definition callArgs (c : CallTree) : SNode * Options * option bool :=
  (c_node c, c_options c, c_isRoot c).

(** The same world with another order of settlement. *)
Definition withOrder (E : Env) (order : SNode -> list nat) : Env :=
  mkEnv (document E) (getMimeType E) (resourceToDataURL E) (drawImage E)
        (clonePseudoElements E) (reducedFont E) (hasStyle E) (parsedText E)
        order.

(** The clones that are not [null], in order. *)
Fixpoint present (clones : list (option CNode)) : list CNode :=
  match clones with
  | [] => []
  | Some c :: rest => c :: present rest
  | None :: rest => present rest
  end.

Definition isOk {A} (o : Outcome A) : bool :=
  match o with Ok _ => true | _ => false end.

Definition memString (s : string) (l : list string) : bool :=
  existsb (String.eqb s) l.

(** The references of [uses] that the resolver has to fetch, each with the
    definition the live document gives for it: reference not empty, nothing
    matching inside the clone, a definition in the document, not met
    before ([seen]). *)
Fixpoint pendingDefs (E : Env) (clone : CNode) (uses : list CNode)
  (seen : list string) : list (string * SNode) :=
  match uses with
  | [] => []
  | use :: rest =>
      match getAttribute "xlink:href" use with
      | Some id =>
          match truthy id, querySelector id clone,
                documentQuerySelector E id, memString id seen with
          | true, None, Some definition, false =>
              (id, definition) :: pendingDefs E clone rest (seen ++ [id])
          | _, _, _, _ => pendingDefs E clone rest seen
          end
      | None => pendingDefs E clone rest seen
      end
  end.

(** A video without a current source whose poster cannot be converted. *)
Definition posterFails (E : Env) (options : Options) (video : SNode) : Prop :=
  exists lv e,
    liveOf video = Some lv /\
    isInstanceOfElement video HTMLVideoElement = true /\
    truthy (currentSrc lv) = false /\
    resourceToDataURL E (poster lv) (getMimeType E (poster lv)) options
      = Throw e.

(** [FailsUnder E options fuel node]: below [node] there is such a video,
    reached through resolved child lists only, every node on the way being
    kept by the filter and having got its own shallow clone. *)
Inductive FailsUnder (E : Env) (options : Options) : nat -> SNode -> Prop :=
| FailsHere fuel video :
    posterFails E options video ->
    FailsUnder E options (S fuel) video
| FailsBelow fuel parent kids child c :
    resolvedChildren parent = Ok kids ->
    In child kids ->
    isInstanceOfElement parent HTMLVideoElement = false ->
    outcome (cloneSingleNode E (cloneNode E fuel) parent options) = Ok (Some c) ->
    rejected child options None = false ->
    FailsUnder E options fuel child ->
    FailsUnder E options (S fuel) parent.

(** The reading of C4 to the letter, for one top-level call: whenever an
    invocation recorded under it was rejected on a video whose poster
    cannot be converted, the top-level call is rejected. *)
Definition posterFailureFailsAll (E : Env) (fuel : nat) (top : SNode)
  (options : Options) : Prop :=
  forall call,
    In call (flat_map allCalls
               (trace (cloneNode E fuel top options (Some true)))) ->
    posterFails E (c_options call) (c_node call) ->
    (exists e, c_res call = Throw e) ->
    exists e, outcome (cloneNode E fuel top options (Some true)) = Throw e.

(** The reading of C7 to the letter, for one run of the resolver: every
    call it makes is a non-root call. *)
Definition definitionsClonedAsNonRoot (E : Env) (fuel : nat) (clone : CNode)
  (options : Options) : Prop :=
  forall call,
    In call (trace (ensureSVGSymbols E (cloneNode E fuel) clone options)) ->
    isTrue (c_isRoot call) = false.

(** No key of the table holds [null]. *)
Definition allSome (t : Table) : Prop :=
  forall k, In (k, None) t -> False.

(** The call the resolver makes for a reference to fetch. *)
Definition asRootCall (options : Options) (p : string * SNode)
  : SNode * Options * option bool :=
  (snd p, options, Some true).

(** The record of a call that did not consult the exclusion predicate and
    did not yield [null]. *)
Definition rootRecord (c : CallTree) : Prop :=
  c_asked c = false /\ c_res c <> Ok None.

(** The reading of C9 to the letter, for one select and its clone: after
    the transfer no child other than the one whose value is the current
    value carries a [selected] attribute. *)
Definition onlyMatchSelected (nativeNode : SNode) (clonedNode : CNode) : Prop :=
  forall lv child,
    liveOf nativeNode = Some lv ->
    In child (childrenOf (cloneSelectValue nativeNode clonedNode)) ->
    getAttribute "value" child <> Some (value lv) ->
    hasAttribute "selected" child = false.

(** Two worlds that differ at most in the order of settlement. *)
Definition sameWorld (E1 E2 : Env) : Prop :=
  document E1 = document E2
  /\ getMimeType E1 = getMimeType E2
  /\ resourceToDataURL E1 = resourceToDataURL E2
  /\ drawImage E1 = drawImage E2
  /\ clonePseudoElements E1 = clonePseudoElements E2
  /\ reducedFont E1 = reducedFont E2
  /\ hasStyle E1 = hasStyle E2
  /\ parsedText E1 = parsedText E2.

(** [agrees strict o1 o2]: a fulfilled [o1] is matched by [o2] with the same
    value, a rejected one by a rejection; a promise that is not settled is
    matched by anything, or, when [strict], by one not settled either. *)
Definition agrees {A} (strict : bool) (o1 o2 : Outcome A) : Prop :=
  match o1 with
  | Ok a => o2 = Ok a
  | Throw _ => exists e, o2 = Throw e
  | Diverge => if strict then o2 = Diverge else True
  end.

(** The name of a declaration. *)
Definition declName (d : Decl) : string := fst (fst d).

(** The value and priority last assigned to a property. *)
Fixpoint getDecl (name : string) (ds : list Decl) : option (string * string) :=
  match ds with
  | [] => None
  | (n, v, p) :: rest => if n =? name then Some (v, p) else getDecl name rest
  end.

(** The children an exclusion predicate lets through. *)
Definition accepted (options : Options) (kids : list SNode) : list SNode :=
  List.filter (fun kid => negb (rejected kid options None)) kids.

(** The image [createImage] builds for a data URL. *)
Definition imageOf (dataURL : string) : CNode :=
  CElem (mkElem xhtml "img" HTMLImageElement [("src", dataURL)])
        (mkStyle "" []) [].

(** A record left by a call of [cloneNode'] made with [options] or with
    the empty options. *)
Definition fromCall
  (cloneNode' : SNode -> Options -> option bool -> M (option CNode))
  (options : Options) (c : CallTree) : Prop :=
  exists node o isRoot,
    (o = options \/ o = emptyOptions)
    /\ In c (trace (cloneNode' node o isRoot)).

(** The reading of C3 to the letter, for one iframe cloned by a root call
    whose nested calls have [fuel]: when reading the nested document
    raises, when there is no document or no body, or when the clone of the
    body is rejected, the caller gets no failure but a clone without
    children. *)
Definition iframeFailureNeverSurfaces (E : Env) (fuel : nat) (iframe : SNode)
  (options : Options) : Prop :=
  (contentDocumentBody iframe = AccessThrows
   \/ contentDocumentBody iframe = NoDocument
   \/ contentDocumentBody iframe = NoBody
   \/ exists body e,
        contentDocumentBody iframe = HasBody body
        /\ outcome (cloneNode E fuel body emptyOptions (Some true)) = Throw e) ->
  exists c,
    outcome (cloneNode E (S fuel) iframe options (Some true)) = Ok (Some c)
    /\ childrenOf c = [].

Definition isNameStart (c : ascii) : bool :=
  let n := nat_of_ascii c in
  ((65 <=? n)%nat && (n <=? 90)%nat)
  || ((97 <=? n)%nat && (n <=? 122)%nat)
  || (n =? 95)%nat.

Definition isNameChar (c : ascii) : bool :=
  let n := nat_of_ascii c in
  isNameStart c || ((48 <=? n)%nat && (n <=? 57)%nat) || (n =? 45)%nat.

Fixpoint allNameChars (s : string) : bool :=
  match s with
  | EmptyString => true
  | String c rest => isNameChar c && allNameChars rest
  end.

(** The references on which the platform's [querySelector] is what
    [matchesId] says: [#] followed by a name made of letters, digits,
    [_] and [-] that starts with a letter or [_].  Such a selector is well
    formed and selects by [id] alone. *)
Definition plainReference (s : string) : bool :=
  match s with
  | String "#" (String c rest) => isNameStart c && allNameChars rest
  | _ => false
  end.

(** ** Sample documents *)

Definition noStyle : ComputedStyle := mkComputed "" "" [].
Definition noLive : Live := mkLive "" "" "" 0 0 "" noStyle.

Definition svgNS : string := "http://www.w3.org/2000/svg".

Definition htmlElement (name : string) (attrs : list (string * string))
  (kids : list SNode) : SNode :=
  SElem (mkElem xhtml name OtherElement attrs) noLive kids None None NoDocument.

Definition svgElement (name : string) (attrs : list (string * string))
  (kids : list SNode) : SNode :=
  SElem (mkElem svgNS name OtherElement attrs) noLive kids None None NoDocument.

Definition canvasElement (pixels : string) : SNode :=
  SElem (mkElem xhtml "canvas" HTMLCanvasElement [])
        (mkLive pixels "" "" 0 0 "" noStyle) [] None None NoDocument.

Definition videoElement (src posterURL : string) : SNode :=
  SElem (mkElem xhtml "video" HTMLVideoElement [])
        (mkLive "" src posterURL 0 0 "" noStyle) [] None None NoDocument.

Definition iframeElement (doc : DocAccess SNode) : SNode :=
  SElem (mkElem xhtml "iframe" HTMLIFrameElement []) noLive [] None None doc.

Definition selectElement (current : string) (kids : list SNode) : SNode :=
  SElem (mkElem xhtml "select" HTMLSelectElement [])
        (mkLive "" "" "" 0 0 current noStyle) kids None None NoDocument.

Definition cloneElement (ns name : string) (attrs : list (string * string))
  (kids : list CNode) : CNode :=
  CElem (mkElem ns name OtherElement attrs) (mkStyle "" []) kids.

(** A world whose resource conversion fails on the URL [missing.png]. *)
Definition sampleEnv (doc : list SNode) : Env :=
  mkEnv doc
        (fun _ => "image/png")
        (fun url _ _ =>
           if url =? "missing.png" then Throw (ResourceError url)
           else Ok ("data:image/png;base64," ++ url)%string)
        (fun _ _ _ => "data:image/png;base64,frame")
        (fun _ c => c)
        (fun s => s)
        (fun _ => true)
        (fun s => s)
        (fun _ => []).

(** An exclusion predicate that rejects every video. *)
Definition noVideos : Options :=
  mkOptions (Some (fun n => negb (isInstanceOfElement n HTMLVideoElement))) [].

(** An exclusion predicate that rejects every element with class [skip]. *)
Definition noSkipped : Options :=
  mkOptions
    (Some (fun n =>
             match n with
             | SElem el _ _ _ _ _ =>
                 match getAttr "class" (attributes el) with
                 | Some c => negb (c =? "skip")
                 | None => true
                 end
             | SText _ => true
             end)) [].

(** An iframe whose document holds a video with an unreachable poster. *)
Definition framedVideo : SNode :=
  iframeElement
    (HasBody (htmlElement "body" [] [videoElement "" "missing.png"])).

(** A paragraph the caller excludes, inside the document of an iframe. *)
Definition skippedParagraph : SNode :=
  htmlElement "p" [("class", "skip")] [].

Definition framedBody : SNode := htmlElement "body" [] [skippedParagraph].

Definition framedSkipped : SNode := iframeElement (HasBody framedBody).

(** A symbol the caller excludes, referenced from a clone that lacks it. *)
Definition skippedSymbol : SNode :=
  svgElement "symbol" [("id", "a"); ("class", "skip")]
             [svgElement "path" [] []].

Definition danglingUse : CNode :=
  cloneElement svgNS "svg" []
    [cloneElement svgNS "use" [("xlink:href", "#a")] [];
     cloneElement svgNS "use" [("xlink:href", "#a")] []].

(** The symbol of the live document and its clone. *)
Definition symbolA : SNode :=
  svgElement "symbol" [("id", "a")] [svgElement "path" [] []].

Definition symbolAClone : CNode :=
  cloneElement svgNS "symbol" [("id", "a")] [cloneElement svgNS "path" [] []].

(** [danglingUse] after the resolver has run on it. *)
Definition resolvedUse : CNode :=
  cloneElement svgNS "svg" []
    [cloneElement svgNS "use" [("xlink:href", "#a")] [];
     cloneElement svgNS "use" [("xlink:href", "#a")] [];
     CElem (mkElem xhtml "svg" OtherElement [("xmlns", xhtml)])
           (mkStyle "" [("position", "absolute", ""); ("width", "0", "");
                        ("height", "0", ""); ("overflow", "hidden", "");
                        ("display", "none", "")])
           [CElem (mkElem xhtml "defs" OtherElement []) (mkStyle "" [])
                  [symbolAClone]]].

(** A select whose markup preselects [a] and whose current value is [b]. *)
Definition optionClone (v : string) (more : list (string * string)) : CNode :=
  cloneElement xhtml "option" (("value", v) :: more) [].

Definition selectB : SNode := selectElement "b" [].

Definition rawSelectClone (more : list (string * string)) : CNode :=
  CElem (mkElem xhtml "select" HTMLSelectElement []) (mkStyle "" [])
        [optionClone "a" more; optionClone "b" []; optionClone "c" []].

(** A world in which no element has a style object. *)
Definition styleLessEnv : Env :=
  mkEnv [] (fun _ => "") (fun _ _ _ => Diverge) (fun _ _ _ => "")
        (fun _ c => c) (fun s => s) (fun _ => false) (fun s => s)
        (fun _ => []).

(** A document whose symbol [a] holds a video with an unreachable poster. *)
Definition brokenSymbolEnv : Env :=
  sampleEnv [htmlElement "html" []
               [svgElement "symbol" [("id", "a")]
                  [videoElement "" "missing.png"]]].

(** ** Basic facts *)

Lemma cloneNode_unfold (E : Env) (fuel : nat) (node : SNode)
  (options : Options) (isRoot : option bool) :
  cloneNode E fuel node options isRoot
  = recorded node options isRoot
      (if rejected node options isRoot then ret None
       else match fuel with
            | O => diverge
            | S fuel' =>
                c <- cloneSteps E (cloneNode E fuel') node options ;;
                ret (Some c)
            end).
Proof. destruct fuel; reflexivity. Qed.

Lemma outcome_bind_ret {A B} (m : M A) (f : A -> B) (b : B) :
  outcome (x <- m ;; ret (f x)) = Ok b ->
  exists a, outcome m = Ok a /\ f a = b.
Proof.
  destruct m as [t [a | e |]]; cbn; intros H; try discriminate.
  exists a. split; [reflexivity | congruence].
Qed.

Lemma rejected_root (node : SNode) (options : Options) (isRoot : option bool) :
  isTrue isRoot = true -> rejected node options isRoot = false.
Proof. intros H. unfold rejected. rewrite H. reflexivity. Qed.

(** A root call never yields [null]. *)
Lemma cloneNode_root_never_null (E : Env) (fuel : nat) (node : SNode)
  (options : Options) (isRoot : option bool) :
  isTrue isRoot = true ->
  outcome (cloneNode E fuel node options isRoot) <> Ok None.
Proof.
  intros Hroot. rewrite cloneNode_unfold. unfold recorded, outcome at 1. cbn [snd].
  rewrite (rejected_root _ _ _ Hroot).
  destruct fuel as [| fuel]; [discriminate |].
  intros H. apply (outcome_bind_ret _ Some None) in H.
  destruct H as [a [_ H]]. discriminate.
Qed.

(** ** The exclusion filter (Orchestrator, step 1) *)

(** C1.  A call that is not the root call and whose exclusion predicate
    returns false on the node yields null: the record of the call shows the
    predicate consulted, the result absent and no invocation underneath, so
    no clone is built and no descendant visited.  A call with [isRoot] true
    never consults the predicate for the node, always runs the clone steps
    and never yields null. *)
Theorem cloneNode_filter_gate (E : Env) (node : SNode) (options : Options) :
  (forall fuel isRoot f,
      isTrue isRoot = false ->
      filter options = Some f ->
      f node = false ->
      cloneNode E fuel node options isRoot
      = ([Call node options isRoot true (Ok None) []], Ok None))
  /\
  (forall fuel,
      cloneNode E (S fuel) node options (Some true)
      = recorded node options (Some true)
          (c <- cloneSteps E (cloneNode E fuel) node options ;; ret (Some c))
      /\ consulted options (Some true) = false
      /\ outcome (cloneNode E (S fuel) node options (Some true)) <> Ok None).
Proof.
  split.
  - intros fuel isRoot f Hroot Hf Hrej.
    rewrite cloneNode_unfold.
    unfold recorded, rejected, consulted. rewrite Hroot, Hf, Hrej. reflexivity.
  - intros fuel. split; [reflexivity | split; [reflexivity |]].
    apply cloneNode_root_never_null. reflexivity.
Qed.

Lemma cloneNode_filter_gate_witness :
  cloneNode (sampleEnv []) 0
            (videoElement "" "missing.png") noVideos None
  = ([Call (videoElement "" "missing.png") noVideos None true (Ok None) []],
     Ok None).
Proof.
  destruct (cloneNode_filter_gate (sampleEnv [])
              (videoElement "" "missing.png") noVideos) as [H _].
  apply (H 0 None (fun n => negb (isInstanceOfElement n HTMLVideoElement)));
    reflexivity.
Defined.

(** ** Per-type node cloner *)

(** C2.  For a canvas node the shallow clone is decided by its pixel
    serialization: on the sentinel [data:,] it is the childless structural
    clone of the canvas, still a canvas; otherwise it is the image node
    built from that serialization, which is not a canvas.  [cloneSingleNode]
    sends every canvas node there. *)
Theorem cloneCanvasElement_by_pixels (E : Env)
  (cloneNode' : SNode -> Options -> option bool -> M (option CNode))
  (el : Elem) (lv : Live) (kids : list SNode)
  (shadow assigned : option (list SNode)) (doc : DocAccess SNode)
  (options : Options) :
  let canvas := SElem el lv kids shadow assigned doc in
  interface el = HTMLCanvasElement ->
  cloneSingleNode E cloneNode' canvas options
  = (c <- cloneCanvasElement canvas ;; ret (Some c))
  /\
  (toDataURL lv = "data:," ->
     cloneCanvasElement canvas = ret (shallowClone canvas)
     /\ elemOf (shallowClone canvas) = Some el
     /\ isCategory (shallowClone canvas) HTMLCanvasElement = true
     /\ childrenOf (shallowClone canvas) = [])
  /\
  (toDataURL lv <> "data:," ->
     exists img,
       cloneCanvasElement canvas = ret img
       /\ createImage (toDataURL lv) = ret img
       /\ isCategory img HTMLImageElement = true
       /\ isCategory img HTMLCanvasElement = false
       /\ getAttribute "src" img = Some (toDataURL lv)).
Proof.
  intros canvas Hcat. split; [| split].
  - unfold cloneSingleNode, canvas, isInstanceOfElement.
    rewrite Hcat. reflexivity.
  - intros Hempty. unfold cloneCanvasElement, canvas. cbn [liveOf].
    rewrite Hempty. cbn. rewrite Hcat. repeat split; reflexivity.
  - intros Hpixels. unfold cloneCanvasElement, canvas. cbn [liveOf].
    destruct (String.eqb_spec (toDataURL lv) "data:,") as [Heq | _];
      [contradiction |].
    eexists. repeat split; reflexivity.
Qed.

Lemma cloneCanvasElement_by_pixels_witness :
  cloneCanvasElement (canvasElement "data:,")
  = ret (shallowClone (canvasElement "data:,"))
  /\ exists img,
       cloneCanvasElement (canvasElement "data:image/png;base64,AAAA") = ret img
       /\ isCategory img HTMLCanvasElement = false.
Proof.
  split.
  - apply (cloneCanvasElement_by_pixels (sampleEnv []) (fun _ _ _ => ret None)
             (mkElem xhtml "canvas" HTMLCanvasElement [])
             (mkLive "data:," "" "" 0 0 "" noStyle) [] None None NoDocument
             emptyOptions); reflexivity.
  - destruct (cloneCanvasElement_by_pixels (sampleEnv []) (fun _ _ _ => ret None)
                (mkElem xhtml "canvas" HTMLCanvasElement [])
                (mkLive "data:image/png;base64,AAAA" "" "" 0 0 "" noStyle)
                [] None None NoDocument emptyOptions eq_refl) as [_ [_ H]].
    destruct H as [img [H1 [_ [_ [H4 _]]]]]; [discriminate |].
    exists img. split; assumption.
Defined.

Lemma cloneIFrameElement_cases
  (cloneNode' : SNode -> Options -> option bool -> M (option CNode))
  (iframe : SNode) :
  cloneIFrameElement cloneNode' iframe
  = match contentDocumentBody iframe with
    | HasBody body =>
        match cloneNode' body emptyOptions (Some true) with
        | (t, Ok c) => (t, Ok c)
        | (t, Throw _) => (t, Ok (Some (shallowClone iframe)))
        | (t, Diverge) => (t, Diverge)
        end
    | _ => ret (Some (shallowClone iframe))
    end.
Proof.
  unfold cloneIFrameElement.
  destruct (contentDocumentBody iframe) as [| | | body]; try reflexivity.
  destruct (cloneNode' body emptyOptions (Some true)) as [t [c | e |]]; cbn;
    rewrite ?app_nil_r; reflexivity.
Qed.

(** C3, as the code has it.  The iframe-cloning step absorbs every
    failure met while cloning the nested document body: when reading the
    document raises, when there is no document or no body, and when the
    clone of the body is rejected, the step yields the shallow clone of
    the iframe element, which has no children; the step itself is never
    rejected.  [cloneSingleNode] sends every iframe node there.  (What the
    caller of [cloneNode] gets is settled by the steps that follow.) *)
Theorem cloneIFrameElement_absorbs_failures (E : Env)
  (cloneNode' : SNode -> Options -> option bool -> M (option CNode))
  (el : Elem) (lv : Live) (kids : list SNode)
  (shadow assigned : option (list SNode)) (doc : DocAccess SNode)
  (options : Options) :
  let iframe := SElem el lv kids shadow assigned doc in
  interface el = HTMLIFrameElement ->
  cloneSingleNode E cloneNode' iframe options
  = cloneIFrameElement cloneNode' iframe
  /\ (forall e, outcome (cloneIFrameElement cloneNode' iframe) <> Throw e)
  /\ (doc = AccessThrows \/ doc = NoDocument \/ doc = NoBody ->
      cloneIFrameElement cloneNode' iframe = ret (Some (shallowClone iframe)))
  /\ (forall body e,
         doc = HasBody body ->
         outcome (cloneNode' body emptyOptions (Some true)) = Throw e ->
         cloneIFrameElement cloneNode' iframe
         = (trace (cloneNode' body emptyOptions (Some true)),
            Ok (Some (shallowClone iframe))))
  /\ elemOf (shallowClone iframe) = Some el
  /\ childrenOf (shallowClone iframe) = [].
Proof.
  intros iframe Hcat.
  split; [| split; [| split; [| split; [| split]]]].
  - unfold cloneSingleNode, iframe, isInstanceOfElement.
    rewrite Hcat. reflexivity.
  - intros e. rewrite cloneIFrameElement_cases.
    destruct (contentDocumentBody iframe) as [| | | body]; try discriminate.
    destruct (cloneNode' body emptyOptions (Some true)) as [t [c | e' |]];
      discriminate.
  - intros Hdoc. rewrite cloneIFrameElement_cases. unfold iframe.
    cbn [contentDocumentBody].
    destruct Hdoc as [-> | [-> | ->]]; reflexivity.
  - intros body e -> Hthrow. rewrite cloneIFrameElement_cases. unfold iframe.
    cbn [contentDocumentBody].
    destruct (cloneNode' body emptyOptions (Some true)) as [t [c | e' |]];
      cbn in Hthrow; try discriminate. reflexivity.
  - reflexivity.
  - reflexivity.
Qed.

Lemma cloneIFrameElement_absorbs_failures_witness :
  let body := htmlElement "body" [] [videoElement "" "missing.png"] in
  outcome (cloneNode (sampleEnv []) 3 body emptyOptions (Some true))
  = Throw (ResourceError "missing.png")
  /\ outcome (cloneIFrameElement (cloneNode (sampleEnv []) 3)
                (iframeElement (HasBody body)))
     = Ok (Some (shallowClone (iframeElement (HasBody body))))
  /\ cloneIFrameElement (cloneNode (sampleEnv []) 3)
       (iframeElement AccessThrows)
     = ret (Some (shallowClone (iframeElement AccessThrows))).
Proof.
  intros body.
  assert (Hthrow : outcome (cloneNode (sampleEnv []) 3 body emptyOptions
                              (Some true))
                   = Throw (ResourceError "missing.png")) by reflexivity.
  split; [exact Hthrow | split].
  - destruct (cloneIFrameElement_absorbs_failures (sampleEnv [])
                (cloneNode (sampleEnv []) 3)
                (mkElem xhtml "iframe" HTMLIFrameElement []) noLive []
                None None (HasBody body) emptyOptions eq_refl)
      as [_ [_ [_ [H _]]]].
    unfold iframeElement.
    rewrite (H body (ResourceError "missing.png") eq_refl Hthrow).
    reflexivity.
  - destruct (cloneIFrameElement_absorbs_failures (sampleEnv [])
                (cloneNode (sampleEnv []) 3)
                (mkElem xhtml "iframe" HTMLIFrameElement []) noLive []
                None None AccessThrows emptyOptions eq_refl)
      as [_ [_ [H _]]].
    apply H. left. reflexivity.
Defined.

(** The enumeration of the children reads the nested document again,
    outside the handler of the iframe-cloning step. *)
Example nested_document_read_again :
  resolvedChildren (iframeElement AccessThrows) = Throw SecurityError
  /\ outcome (cloneNode (sampleEnv []) 1 (iframeElement AccessThrows)
                emptyOptions (Some true))
     = Throw SecurityError.
Proof. split; reflexivity. Qed.

(** The clone of the nested body is rejected by the unreachable poster and
    the iframe-cloning step absorbs that; the enumeration of the children
    then clones the child nodes of the same body with no handler, and the
    rejection reaches the caller. *)
Lemma nested_failure_reaches_the_caller :
  ~ iframeFailureNeverSurfaces (sampleEnv []) 3 framedVideo emptyOptions.
Proof.
  intros H. destruct H as [c [Hc _]].
  - right. right. right.
    exists (htmlElement "body" [] [videoElement "" "missing.png"]).
    exists (ResourceError "missing.png"). split; reflexivity.
  - vm_compute in Hc. discriminate Hc.
Qed.

(** Likewise when reading the nested document raises: the step absorbs it
    and the second reading does not. *)
Example throwing_document_reaches_the_caller :
  ~ iframeFailureNeverSurfaces (sampleEnv []) 0 (iframeElement AccessThrows)
      emptyOptions.
Proof.
  intros H. destruct H as [c [Hc _]].
  - left. reflexivity.
  - vm_compute in Hc. discriminate Hc.
Qed.

(** Without a nested document, the child nodes of the iframe element
    itself are cloned into the clone. *)
Example iframe_without_document_keeps_its_children :
  outcome (cloneNode (sampleEnv []) 2
             (SElem (mkElem xhtml "iframe" HTMLIFrameElement []) noLive
                    [SText "fallback"] None None NoDocument)
             emptyOptions (Some true))
  = Ok (Some (CElem (mkElem xhtml "iframe" HTMLIFrameElement [])
                    (mkStyle "" []) [CText "fallback"])).
Proof. reflexivity. Qed.

(** ** Propagation of failures *)

Lemma outcome_bind_ok {A B} (m : M A) (k : A -> M B) (a : A) :
  outcome m = Ok a -> outcome (x <- m ;; k x) = outcome (k a).
Proof.
  destruct m as [t o]; cbn; intros ->. cbn. destruct (k a). reflexivity.
Qed.

Lemma outcome_bind_throw {A B} (m : M A) (k : A -> M B) (e : Error) :
  outcome m = Throw e -> outcome (x <- m ;; k x) = Throw e.
Proof. destruct m as [t o]; cbn; intros ->. reflexivity. Qed.

Lemma outcome_recorded (node : SNode) (options : Options)
  (isRoot : option bool) (m : M (option CNode)) :
  outcome (recorded node options isRoot m) = outcome m.
Proof. reflexivity. Qed.

Lemma firstRejection_app {A} (outs : list (Outcome A)) (l1 l2 : list nat) :
  firstRejection outs (l1 ++ l2)
  = match firstRejection outs l1 with
    | Some e => Some e
    | None => firstRejection outs l2
    end.
Proof.
  induction l1 as [| i l1 IH]; cbn; [reflexivity |].
  destruct (nth_error outs i) as [[a | e |] |]; auto.
Qed.

Lemma firstRejection_found {A} (outs : list (Outcome A)) (order : list nat)
  (i : nat) (e : Error) :
  In i order -> nth_error outs i = Some (Throw e) ->
  exists e', firstRejection outs order = Some e'.
Proof.
  induction order as [| j order IH]; cbn; [tauto |].
  intros [-> | Hin] Hnth.
  - rewrite Hnth. eauto.
  - destruct (nth_error outs j) as [[a | e0 |] |]; eauto.
Qed.

Lemma firstRejection_none {A} (outs : list (Outcome A)) (order : list nat) :
  (forall e, ~ In (Throw e) outs) -> firstRejection outs order = None.
Proof.
  intros Hno. induction order as [| i order IH]; cbn; [reflexivity |].
  destruct (nth_error outs i) as [[a | e |] |] eqn:Hnth; auto.
  exfalso. apply (Hno e). eapply nth_error_In. exact Hnth.
Qed.

(** A rejected promise rejects the join, whatever the order of settlement. *)
Lemma joinAll_throws {A} (order : list nat) (outs : list (Outcome A))
  (e : Error) :
  In (Throw e) outs -> exists e', joinAll order outs = Throw e'.
Proof.
  intros Hin. apply In_nth_error in Hin. destruct Hin as [i Hnth].
  unfold joinAll. rewrite firstRejection_app.
  destruct (firstRejection outs order) as [e1 |]; [eauto |].
  destruct (firstRejection_found outs (seq 0 (length outs)) i e) as [e' ->];
    [| exact Hnth | eauto].
  apply in_seq. split; [lia |]. cbn.
  apply nth_error_Some. rewrite Hnth. discriminate.
Qed.

Lemma cloneChildren_throws (E : Env)
  (cloneNode' : SNode -> Options -> option bool -> M (option CNode))
  (parent : SNode) (c : CNode) (options : Options)
  (kids : list SNode) (child : SNode) (e : Error) :
  resolvedChildren parent = Ok kids ->
  In child kids ->
  isInstanceOfElement parent HTMLVideoElement = false ->
  outcome (cloneNode' child options None) = Throw e ->
  exists e', outcome (cloneChildren E cloneNode' parent c options) = Throw e'.
Proof.
  intros Hkids Hin Hvideo Hthrow.
  unfold cloneChildren. rewrite Hkids. cbn [lift bind app].
  rewrite Hvideo, orb_false_r.
  destruct kids as [| k kids]; [destruct Hin |].
  cbn [length Nat.eqb].
  destruct (joinAll_throws (settleOrder E parent)
              (map outcome
                 (map (fun child => cloneNode' child options None) (k :: kids)))
              e) as [e' He'].
  - rewrite <- Hthrow. apply in_map.
    apply (in_map (fun child => cloneNode' child options None)). exact Hin.
  - exists e'. unfold promiseAll. cbn [bind]. rewrite He'. reflexivity.
Qed.

(** C4, as the code has it.  A video without a current source is cloned
    from the conversion of its poster, and a failure of that conversion
    rejects the clone of the video; the rejection then rejects every
    enclosing [cloneNode] call that reaches the video through resolved
    child lists, up to the top-level call.  (The one place that stops it
    is the iframe-cloning step, which handles the rejection of the nested
    body it clones.) *)
Theorem poster_failure_propagates (E : Env) (options : Options) :
  (forall cloneNode' video lv,
      liveOf video = Some lv ->
      truthy (currentSrc lv) = false ->
      cloneVideoElement E video options
      = (dataURL <- lift (resourceToDataURL E (poster lv)
                            (getMimeType E (poster lv)) options) ;;
         createImage dataURL)
      /\ (isInstanceOfElement video HTMLVideoElement = true ->
          cloneSingleNode E cloneNode' video options
          = (c <- cloneVideoElement E video options ;; ret (Some c))))
  /\
  (forall fuel node isRoot,
      FailsUnder E options fuel node ->
      rejected node options isRoot = false ->
      exists e, outcome (cloneNode E fuel node options isRoot) = Throw e).
Proof.
  split.
  - intros cloneNode' video lv Hlive Hsrc. split.
    + unfold cloneVideoElement. rewrite Hlive, Hsrc. reflexivity.
    + intros Hvideo. unfold cloneSingleNode. rewrite Hvideo.
      destruct video as [d | el lv' kids sh asg doc]; [discriminate |].
      unfold isInstanceOfElement in *.
      destruct (interface el); try discriminate. reflexivity.
  - intros fuel node isRoot Hfails. revert isRoot.
    induction Hfails as [fuel video Hposter
                        | fuel parent kids child c Hkids Hin Hvideo Hown Hkeep
                            Hfails IH];
      intros isRoot Hrej.
    + destruct Hposter as [lv [e [Hlive [Hvideo [Hsrc Hconv]]]]].
      exists e. rewrite cloneNode_unfold, outcome_recorded, Hrej.
      apply outcome_bind_throw. unfold cloneSteps.
      apply outcome_bind_throw. unfold cloneSingleNode.
      assert (Hcanvas : isInstanceOfElement video HTMLCanvasElement = false).
      { destruct video as [d | el lv' k s a doc]; [reflexivity |].
        unfold isInstanceOfElement in *.
        destruct (interface el); try discriminate; reflexivity. }
      rewrite Hcanvas, Hvideo. apply outcome_bind_throw.
      unfold cloneVideoElement. rewrite Hlive, Hsrc.
      apply outcome_bind_throw. exact Hconv.
    + destruct (IH None Hkeep) as [e He].
      destruct (cloneChildren_throws E (cloneNode E fuel) parent c options
                  kids child e Hkids Hin Hvideo He) as [e' He'].
      exists e'. rewrite cloneNode_unfold, outcome_recorded, Hrej.
      apply outcome_bind_throw. unfold cloneSteps.
      rewrite (outcome_bind_ok _ _ _ Hown).
      apply outcome_bind_throw. exact He'.
Qed.

Lemma poster_failure_propagates_witness :
  let video := videoElement "" "missing.png" in
  let top := htmlElement "div" [] [htmlElement "p" [] []; video] in
  exists e,
    outcome (cloneNode (sampleEnv []) 2 top emptyOptions (Some true)) = Throw e.
Proof.
  intros video top.
  destruct (poster_failure_propagates (sampleEnv []) emptyOptions) as [_ H].
  apply H; [| reflexivity].
  apply (FailsBelow _ _ 1 top [htmlElement "p" [] []; video] video
           (shallowClone top)).
  - reflexivity.
  - right. left. reflexivity.
  - reflexivity.
  - reflexivity.
  - reflexivity.
  - apply FailsHere. exists (mkLive "" "" "missing.png" 0 0 "" noStyle).
    exists (ResourceError "missing.png"). repeat split; reflexivity.
Defined.

(** The iframe-cloning step stops the rejection: the video inside the
    nested body is cloned without the filter and rejected, the step
    handles it, and the children are then cloned again under the caller's
    filter, which leaves the video out. *)
Lemma poster_failure_absorbed_by_iframe :
  ~ posterFailureFailsAll (sampleEnv []) 4 framedVideo noVideos.
Proof.
  intros H.
  destruct (H (Call (videoElement "" "missing.png") emptyOptions None false
                 (Throw (ResourceError "missing.png")) [])) as [e He].
  - vm_compute. right. right. left. reflexivity.
  - exists (mkLive "" "" "missing.png" 0 0 "" noStyle).
    exists (ResourceError "missing.png"). repeat split; reflexivity.
  - eexists. reflexivity.
  - vm_compute in He. discriminate.
Qed.

Example framedVideo_is_cloned :
  outcome (cloneNode (sampleEnv []) 4 framedVideo noVideos (Some true))
  = Ok (Some (shallowClone framedVideo)).
Proof. reflexivity. Qed.

(** ** Subtree enumerator *)

Lemma outcome_bind_inv {A B} (m : M A) (k : A -> M B) (b : B) :
  outcome (x <- m ;; k x) = Ok b ->
  exists a, outcome m = Ok a /\ outcome (k a) = Ok b.
Proof.
  destruct m as [t [a | e |]]; cbn; intros H; try discriminate.
  exists a. split; [reflexivity |]. destruct (k a). exact H.
Qed.

Lemma allValues_map_Ok {A} (outs : list (Outcome A)) (l : list A) :
  allValues outs = Some l -> outs = map Ok l.
Proof.
  revert l. induction outs as [| o outs IH]; cbn; intros l H.
  - injection H as <-. reflexivity.
  - destruct o as [a | e |]; try discriminate.
    destruct (allValues outs) as [l' |]; [| discriminate].
    injection H as <-. cbn. f_equal. apply IH. reflexivity.
Qed.

Lemma allValues_of_map_Ok {A} (l : list A) : allValues (map Ok l) = Some l.
Proof. induction l as [| a l IH]; cbn; [| rewrite IH]; reflexivity. Qed.

(** A fulfilled join gives the values by index, and is the same join under
    any other order of settlement. *)
Lemma joinAll_Ok {A} (order : list nat) (outs : list (Outcome A)) (l : list A) :
  joinAll order outs = Ok l ->
  outs = map Ok l /\ forall order', joinAll order' outs = Ok l.
Proof.
  unfold joinAll. intros H.
  destruct (firstRejection outs (order ++ seq 0 (length outs))); [discriminate |].
  destruct (allValues outs) as [l' |] eqn:Hall; [| discriminate].
  injection H as <-. apply allValues_map_Ok in Hall. subst outs.
  split; [reflexivity |]. intros order'.
  rewrite firstRejection_none; [reflexivity |].
  intros e Hin. apply in_map_iff in Hin. destruct Hin as [a [Ha _]].
  discriminate.
Qed.

Lemma appendAll_element (el : Elem) (st : InlineStyle) (ch : list CNode)
  (clones : list (option CNode)) :
  appendAll (CElem el st ch) clones = Ok (CElem el st (ch ++ present clones)).
Proof.
  revert ch. induction clones as [| [c |] clones IH]; intros ch; cbn.
  - rewrite app_nil_r. reflexivity.
  - rewrite IH, <- app_assoc. reflexivity.
  - apply IH.
Qed.

(** The join and the append loop, for a node whose children are cloned. *)
Lemma cloneChildren_join (E : Env)
  (cloneNode' : SNode -> Options -> option bool -> M (option CNode))
  (nativeNode : SNode) (clonedNode : CNode) (options : Options)
  (kids : list SNode) :
  resolvedChildren nativeNode = Ok kids ->
  kids <> [] ->
  isInstanceOfElement nativeNode HTMLVideoElement = false ->
  outcome (cloneChildren E cloneNode' nativeNode clonedNode options)
  = match joinAll (settleOrder E nativeNode)
            (map (fun kid => outcome (cloneNode' kid options None)) kids)
    with
    | Ok l => appendAll clonedNode l
    | Throw e => Throw e
    | Diverge => Diverge
    end.
Proof.
  intros Hkids Hne Hvideo.
  unfold cloneChildren. rewrite Hkids. cbn [lift bind app].
  rewrite Hvideo, orb_false_r.
  destruct kids as [| k kids]; [contradiction |].
  cbn [length Nat.eqb]. unfold promiseAll. cbn [bind]. rewrite map_map.
  destruct (joinAll _ _) as [l | e |]; reflexivity.
Qed.

Lemma joinAll_of_values {A} (order : list nat) (l : list A) :
  joinAll order (map Ok l) = Ok l.
Proof.
  unfold joinAll.
  rewrite firstRejection_none, allValues_of_map_Ok; [reflexivity |].
  intros e Hin. apply in_map_iff in Hin. destruct Hin as [a [Ha _]].
  discriminate.
Qed.

(** With the clones of all the children fulfilled, the clone gets them
    appended in the order of the child list, for every order of
    settlement; and it is fulfilled in no other way. *)
Lemma cloneChildren_appends_in_order (E : Env)
  (cloneNode' : SNode -> Options -> option bool -> M (option CNode))
  (nativeNode : SNode) (el : Elem) (st : InlineStyle) (ch : list CNode)
  (options : Options) (kids : list SNode)
  (Hkids : resolvedChildren nativeNode = Ok kids)
  (Hne : kids <> [])
  (Hvideo : isInstanceOfElement nativeNode HTMLVideoElement = false) :
  (forall clones,
      map (fun kid => outcome (cloneNode' kid options None)) kids
      = map Ok clones ->
      forall order,
        outcome (cloneChildren (withOrder E order) cloneNode' nativeNode
                   (CElem el st ch) options)
        = Ok (CElem el st (ch ++ present clones)))
  /\
  (forall order result,
      outcome (cloneChildren (withOrder E order) cloneNode' nativeNode
                 (CElem el st ch) options)
      = Ok result ->
      exists clones,
        map (fun kid => outcome (cloneNode' kid options None)) kids
        = map Ok clones
        /\ result = CElem el st (ch ++ present clones)).
Proof.
  split.
  - intros clones Hclones order.
    rewrite (cloneChildren_join _ _ _ _ _ kids Hkids Hne Hvideo).
    rewrite Hclones, joinAll_of_values. apply appendAll_element.
  - intros order result Hres.
    rewrite (cloneChildren_join _ _ _ _ _ kids Hkids Hne Hvideo) in Hres.
    destruct (joinAll _ _) as [clones | e |] eqn:Hjoin; try discriminate.
    apply joinAll_Ok in Hjoin. destruct Hjoin as [Hmap _].
    exists clones. split; [exact Hmap |].
    rewrite appendAll_element in Hres. injection Hres as <-. reflexivity.
Qed.

(** ** Threading of the options *)

(** C6, at an iframe whose document holds a node the caller excludes.  The
    iframe-cloning step calls [cloneNode] on the nested body with the empty
    options instead of the caller's, so under the body the exclusion
    predicate is never consulted and the excluded paragraph is cloned into
    the result; the descent through the child list of the same iframe does
    pass the caller's options, and there the paragraph is rejected. *)
Theorem iframe_body_cloned_with_empty_options :
  let run := cloneNode (sampleEnv []) 4 framedSkipped noSkipped (Some true) in
  let calls := flat_map allCalls (trace run) in
  map callArgs calls
  = [(framedSkipped, noSkipped, Some true);
     (framedBody, emptyOptions, Some true);
     (skippedParagraph, emptyOptions, None);
     (skippedParagraph, noSkipped, None)]
  /\ map c_asked calls = [false; false; false; true]
  /\ rejected skippedParagraph noSkipped None = true
  /\ outcome run
     = Ok (Some (cloneElement xhtml "body" []
                   [cloneElement xhtml "p" [("class", "skip")] []])).
Proof. repeat split. Qed.

(** ** SVG symbol resolver *)

Lemma memString_app (s : string) (l1 l2 : list string) :
  memString s (l1 ++ l2) = memString s l1 || memString s l2.
Proof. unfold memString. apply existsb_app. Qed.

Lemma tableGet_allSome (t : Table) (id : string) :
  allSome t -> tableGet t id = None -> memString id (tableKeys t) = false.
Proof.
  induction t as [| [k v] t IH]; cbn; intros Hall Hget; [reflexivity |].
  rewrite String.eqb_sym.
  destruct (k =? id) eqn:Hk.
  - subst v. apply String.eqb_eq in Hk. subst k.
    exfalso. apply (Hall id). left. reflexivity.
  - cbn. apply IH; [| exact Hget].
    intros k' Hin. apply (Hall k'). right. exact Hin.
Qed.

Lemma tableGet_Some_mem (t : Table) (id : string) (c : CNode) :
  tableGet t id = Some c -> memString id (tableKeys t) = true.
Proof.
  induction t as [| [k v] t IH]; cbn; [discriminate |].
  rewrite (String.eqb_sym id k).
  destruct (k =? id); [reflexivity |]. exact IH.
Qed.

Lemma tableSet_fresh (t : Table) (id : string) (v : option CNode) :
  memString id (tableKeys t) = false -> tableSet t id v = t ++ [(id, v)].
Proof.
  induction t as [| [k x] t IH]; cbn; [reflexivity |].
  rewrite (String.eqb_sym id k).
  destruct (k =? id); cbn; [discriminate |].
  intros H. rewrite (IH H). reflexivity.
Qed.

Lemma tableKeys_snoc (t : Table) (id : string) (v : option CNode) :
  tableKeys (t ++ [(id, v)]) = tableKeys t ++ [id].
Proof. unfold tableKeys. rewrite map_app. reflexivity. Qed.

Lemma allSome_snoc (t : Table) (id : string) (c : CNode) :
  allSome t -> allSome (t ++ [(id, Some c)]).
Proof.
  intros Hall k Hin. apply in_app_or in Hin. destruct Hin as [Hin | Hin].
  - exact (Hall k Hin).
  - destruct Hin as [Heq | []]. discriminate.
Qed.

(** The references to fetch are pairwise distinct and none was met before. *)
Lemma pendingDefs_fresh (E : Env) (clone : CNode) (uses : list CNode) :
  forall seen,
    NoDup (map fst (pendingDefs E clone uses seen))
    /\ forall id, In id (map fst (pendingDefs E clone uses seen)) ->
                  memString id seen = false.
Proof.
  induction uses as [| use uses IH]; intros seen; cbn.
  - split; [constructor | intros id []].
  - destruct (getAttribute "xlink:href" use) as [id |]; [| apply IH].
    destruct (truthy id); [| apply IH].
    destruct (querySelector id clone); [apply IH |].
    destruct (documentQuerySelector E id) as [d |]; [| apply IH].
    destruct (memString id seen) eqn:Hseen; [apply IH |].
    destruct (IH (seen ++ [id])) as [Hnd Hfresh]. cbn. split.
    + constructor; [| exact Hnd].
      intros Hin. apply Hfresh in Hin. rewrite memString_app in Hin.
      apply orb_false_iff in Hin. destruct Hin as [_ Hin].
      cbn in Hin. rewrite String.eqb_refl in Hin. discriminate.
    + intros id' [<- | Hin]; [exact Hseen |].
      apply Hfresh in Hin. rewrite memString_app in Hin.
      apply orb_false_iff in Hin. tauto.
Qed.

(** Which references are fetched: those of a use element, not empty,
    matched by nothing inside the clone, defined in the live document. *)
Lemma pendingDefs_spec (E : Env) (clone : CNode) (uses : list CNode)
  (id : string) (d : SNode) :
  forall seen,
    In (id, d) (pendingDefs E clone uses seen)
    <-> memString id seen = false
        /\ exists use,
             In use uses
             /\ getAttribute "xlink:href" use = Some id
             /\ truthy id = true
             /\ querySelector id clone = None
             /\ documentQuerySelector E id = Some d.
Proof.
  induction uses as [| use uses IH]; intros seen; cbn.
  - split; [intros [] | intros [_ [use [[] _]]]].
  - assert (Hskip :
      (forall id', getAttribute "xlink:href" use = Some id' ->
                   truthy id' = true -> querySelector id' clone = None ->
                   forall d', documentQuerySelector E id' = Some d' ->
                   memString id' seen = true) ->
      In (id, d) (pendingDefs E clone uses seen)
      <-> memString id seen = false
          /\ exists use0,
               (use = use0 \/ In use0 uses)
               /\ getAttribute "xlink:href" use0 = Some id
               /\ truthy id = true
               /\ querySelector id clone = None
               /\ documentQuerySelector E id = Some d).
    { intros Hno. rewrite IH. split.
      - intros [Hs [u [Hin Hrest]]]. split; [exact Hs |].
        exists u. split; [right; exact Hin | exact Hrest].
      - intros [Hs [u [[<- | Hin] [Hhref [Ht [Hq Hd]]]]]].
        + rewrite (Hno id Hhref Ht Hq d Hd) in Hs. discriminate.
        + split; [exact Hs |]. exists u. repeat split; assumption. }
    destruct (getAttribute "xlink:href" use) as [id0 |] eqn:Hhref;
      [| apply Hskip; intros; discriminate].
    destruct (truthy id0) eqn:Ht;
      [| apply Hskip; intros ? [= <-]; congruence].
    destruct (querySelector id0 clone) eqn:Hq;
      [apply Hskip; intros ? [= <-]; congruence |].
    destruct (documentQuerySelector E id0) as [d0 |] eqn:Hd;
      [| apply Hskip; intros ? [= <-]; congruence].
    destruct (memString id0 seen) eqn:Hseen;
      [apply Hskip; intros ? [= <-]; congruence |].
    cbn. rewrite IH, memString_app. cbn. rewrite orb_false_r. split.
    + intros [Heq | [Hs [u [Hin Hrest]]]].
      * injection Heq as <- <-. split; [exact Hseen |].
        exists use. repeat split; auto.
      * apply orb_false_iff in Hs. destruct Hs as [Hs _].
        split; [exact Hs |]. exists u. split; [right; exact Hin | exact Hrest].
    + intros [Hs [u [[<- | Hin] [Hhref' [Ht' [Hq' Hd']]]]]].
      * left. congruence.
      * destruct (String.eqb_spec id id0) as [-> | Hne].
        -- left. congruence.
        -- right. split; [rewrite Hs; reflexivity |].
           exists u. repeat split; assumption.
Qed.

Section Resolver.

Variable E : Env.
Variable cloneNode' : SNode -> Options -> option bool -> M (option CNode).

(** What the loop needs of the function it calls: each call leaves one
    record of itself, and a root call does not yield [null]. *)
Hypothesis one_record :
  forall node options isRoot,
    exists sub,
      trace (cloneNode' node options isRoot)
      = [Call node options isRoot (consulted options isRoot)
              (outcome (cloneNode' node options isRoot)) sub].
Hypothesis root_not_null :
  forall node options,
    outcome (cloneNode' node options (Some true)) <> Ok None.

Variable clone : CNode.
Variable options : Options.

(** The loop calls [cloneNode] once for each reference to fetch, in order,
    as a root call with the caller's options, until a call is not
    fulfilled; when all are, the table holds exactly those references. *)
Lemma collectDefs_calls (uses : list CNode) :
  forall tbl,
    allSome tbl ->
    let m := collectDefs E cloneNode' clone options uses tbl in
    let pend := pendingDefs E clone uses (tableKeys tbl) in
    exists k,
      k <= length pend
      /\ map callArgs (trace m) = map (asRootCall options) (firstn k pend)
      /\ Forall rootRecord (trace m)
      /\ forall tbl',
           outcome m = Ok tbl' ->
           k = length pend
           /\ tableKeys tbl' = tableKeys tbl ++ map fst pend
           /\ allSome tbl'.
Proof.
  induction uses as [| use uses IH]; intros tbl Hall; cbn zeta.
  - exists 0. cbn. repeat split; auto.
    + injection H as <-. rewrite app_nil_r. reflexivity.
    + injection H as <-. exact Hall.
  - cbn [collectDefs pendingDefs].
    destruct (getAttribute "xlink:href" use) as [id |]; [| apply IH; exact Hall].
    destruct (truthy id); [| apply IH; exact Hall].
    destruct (querySelector id clone); [apply IH; exact Hall |].
    destruct (documentQuerySelector E id) as [d |]; [| apply IH; exact Hall].
    destruct (tableGet tbl id) as [c |] eqn:Hget.
    { rewrite (tableGet_Some_mem _ _ _ Hget). apply IH. exact Hall. }
    pose proof (tableGet_allSome _ _ Hall Hget) as Hfresh. rewrite Hfresh.
    destruct (one_record d options (Some true)) as [sub Hrec].
    pose proof (root_not_null d options) as Hnn.
    destruct (cloneNode' d options (Some true)) as [t o].
    cbn [trace outcome fst snd] in Hrec, Hnn. subst t.
    assert (Hroot : rootRecord
                      (Call d options (Some true)
                            (consulted options (Some true)) o sub)).
    { split; [reflexivity | exact Hnn]. }
    destruct o as [[c |] | e |].
    + (* the definition is cloned: the loop goes on with one more key *)
      cbn [bind]. rewrite (tableSet_fresh _ _ _ Hfresh).
      specialize (IH (tbl ++ [(id, Some c)]) (allSome_snoc _ _ _ Hall)).
      cbn zeta in IH. rewrite !tableKeys_snoc in IH.
      destruct IH as [k [Hk [Hargs [Hrecs Hdone]]]].
      exists (S k).
      destruct (collectDefs E cloneNode' clone options uses
                  (tbl ++ [(id, Some c)])) as [t' o'].
      cbn [trace outcome fst snd] in *.
      split; [cbn; lia | split; [| split]].
      * cbn. f_equal. exact Hargs.
      * constructor; [exact Hroot | exact Hrecs].
      * intros tbl' Hok. destruct (Hdone tbl' Hok) as [-> [Hkeys Hall']].
        split; [reflexivity | split; [| exact Hall']].
        rewrite Hkeys. cbn. rewrite <- app_assoc. reflexivity.
    + exfalso. apply Hnn. reflexivity.
    + exists 1. cbn. repeat split; try lia; try discriminate.
      constructor; [exact Hroot | constructor].
    + exists 1. cbn. repeat split; try lia; try discriminate.
      constructor; [exact Hroot | constructor].
Qed.

End Resolver.

Lemma uses_of_clone (clone : CNode) :
  (if isElement clone then querySelectorAll "use" clone else [])
  = querySelectorAll "use" clone.
Proof. destruct clone; reflexivity. Qed.

(** The resolver makes the calls of its loop and no other. *)
Lemma ensureSVGSymbols_trace (E : Env)
  (cloneNode' : SNode -> Options -> option bool -> M (option CNode))
  (clone : CNode) (options : Options) :
  let loop := collectDefs E cloneNode' clone options
                (querySelectorAll "use" clone) [] in
  trace (ensureSVGSymbols E cloneNode' clone options) = trace loop
  /\ (isOk (outcome (ensureSVGSymbols E cloneNode' clone options)) = true ->
      isOk (outcome loop) = true).
Proof.
  cbn zeta. unfold ensureSVGSymbols. rewrite uses_of_clone.
  destruct (querySelectorAll "use" clone) as [| use uses] eqn:Huses.
  - cbn. split; reflexivity.
  - cbn [length Nat.eqb].
    destruct (collectDefs E cloneNode' clone options (use :: uses) [])
      as [t [tbl | e |]]; cbn [bind trace outcome fst snd];
      [| split; [reflexivity | discriminate] ..].
    split; [| reflexivity].
    destruct (negb (length (tableValues tbl) =? 0)%nat).
    + destruct (symbolContainer (tableValues tbl)) as [svg | e |]; cbn;
        apply app_nil_r.
    + cbn. apply app_nil_r.
Qed.

Lemma cloneNode_one_record (E : Env) (fuel : nat) (node : SNode)
  (options : Options) (isRoot : option bool) :
  exists sub,
    trace (cloneNode E fuel node options isRoot)
    = [Call node options isRoot (consulted options isRoot)
            (outcome (cloneNode E fuel node options isRoot)) sub].
Proof.
  rewrite cloneNode_unfold. unfold recorded.
  eexists. reflexivity.
Qed.

(** C7, as the code has it.  The resolver fetches the references of the
    use elements of the clone that are not empty, match nothing inside the
    clone and have a definition in the live document, each distinct
    reference once: for them, in order and until a call is not fulfilled,
    it calls [cloneNode] on the definition with the caller's options and
    with [isRoot] true.  Being root calls, they do not consult the
    exclusion predicate for the definition node and never yield null. *)
Theorem ensureSVGSymbols_clones_each_definition_once (E : Env) (fuel : nat)
  (clone : CNode) (options : Options) :
  let uses := querySelectorAll "use" clone in
  let pend := pendingDefs E clone uses [] in
  let run := ensureSVGSymbols E (cloneNode E fuel) clone options in
  (forall id d,
      In (id, d) pend
      <-> exists use,
            In use uses
            /\ getAttribute "xlink:href" use = Some id
            /\ truthy id = true
            /\ querySelector id clone = None
            /\ documentQuerySelector E id = Some d)
  /\ NoDup (map fst pend)
  /\ (exists k,
         k <= length pend
         /\ map callArgs (trace run)
            = map (fun p => (snd p, options, Some true)) (firstn k pend)
         /\ (isOk (outcome run) = true -> k = length pend))
  /\ Forall (fun c => c_asked c = false /\ c_res c <> Ok None) (trace run).
Proof.
  cbn zeta. split; [| split; [| split]].
  - intros id d. rewrite pendingDefs_spec. cbn. tauto.
  - apply pendingDefs_fresh.
  - destruct (ensureSVGSymbols_trace E (cloneNode E fuel) clone options)
      as [Htrace Hok].
    destruct (collectDefs_calls E (cloneNode E fuel)
                (cloneNode_one_record E fuel)
                (fun node o => cloneNode_root_never_null E fuel node o
                                 (Some true) eq_refl)
                clone options (querySelectorAll "use" clone) [])
      as [k [Hk [Hargs [_ Hdone]]]].
    { intros id []. }
    exists k. split; [exact Hk | split].
    + rewrite Htrace. exact Hargs.
    + intros H. apply Hok in H.
      destruct (outcome (collectDefs E (cloneNode E fuel) clone options
                           (querySelectorAll "use" clone) [])) as [tbl | |];
        try discriminate.
      destruct (Hdone tbl eq_refl) as [Hlen _]. exact Hlen.
  - destruct (ensureSVGSymbols_trace E (cloneNode E fuel) clone options)
      as [Htrace _].
    destruct (collectDefs_calls E (cloneNode E fuel)
                (cloneNode_one_record E fuel)
                (fun node o => cloneNode_root_never_null E fuel node o
                                 (Some true) eq_refl)
                clone options (querySelectorAll "use" clone) [])
      as [k [_ [_ [Hrecs _]]]].
    { intros id []. }
    rewrite Htrace. exact Hrecs.
Qed.

(** The symbol is excluded by the caller's predicate, and is cloned all
    the same, by a root call; the second use of the same reference makes
    no further call. *)
Lemma definition_cloned_as_root :
  ~ definitionsClonedAsNonRoot
      (sampleEnv [htmlElement "html" [] [skippedSymbol]]) 3
      danglingUse noSkipped.
Proof.
  intros H.
  specialize (H (Call skippedSymbol noSkipped (Some true) false
                   (Ok (Some (cloneElement svgNS "symbol"
                                [("id", "a"); ("class", "skip")]
                                [cloneElement svgNS "path" [] []])))
                   [Call (svgElement "path" [] []) noSkipped None true
                         (Ok (Some (cloneElement svgNS "path" [] []))) []])).
  cbn in H. discriminate H. left. reflexivity.
Qed.

Example excluded_symbol_in_result :
  let E := sampleEnv [htmlElement "html" [] [skippedSymbol]] in
  rejected skippedSymbol noSkipped None = true
  /\ map callArgs (trace (ensureSVGSymbols E (cloneNode E 3) danglingUse
                            noSkipped))
     = [(skippedSymbol, noSkipped, Some true)]
  /\ exists result,
       outcome (ensureSVGSymbols E (cloneNode E 3) danglingUse noSkipped)
       = Ok result
       /\ In (cloneElement svgNS "symbol" [("id", "a"); ("class", "skip")]
                [cloneElement svgNS "path" [] []])
             (descendants result).
Proof.
  cbn zeta. split; [reflexivity | split; [reflexivity |]].
  eexists. split; [reflexivity |]. cbn. tauto.
Qed.

Lemma tableKeys_tableSet (t : Table) (id : string) (v : option CNode)
  (k : string) :
  In k (tableKeys (tableSet t id v)) -> In k (tableKeys t) \/ k = id.
Proof.
  induction t as [| [k0 x] t IH]; cbn.
  - intros [<- | []]. right. reflexivity.
  - destruct (k0 =? id); cbn; [tauto |].
    intros [<- | Hin]; [tauto |]. apply IH in Hin. tauto.
Qed.

(** A key enters the table only for a reference that matches nothing
    inside the clone. *)
Lemma collectDefs_keys (E : Env)
  (cloneNode' : SNode -> Options -> option bool -> M (option CNode))
  (clone : CNode) (options : Options) (uses : list CNode) :
  forall tbl0 tbl,
    outcome (collectDefs E cloneNode' clone options uses tbl0) = Ok tbl ->
    forall id, In id (tableKeys tbl) ->
               In id (tableKeys tbl0) \/ querySelector id clone = None.
Proof.
  induction uses as [| use uses IH]; intros tbl0 tbl; cbn [collectDefs].
  - cbn. intros [= <-] id Hin. left. exact Hin.
  - destruct (getAttribute "xlink:href" use) as [id0 |]; [| apply IH].
    destruct (truthy id0); [| apply IH].
    destruct (querySelector id0 clone) eqn:Hq; [apply IH |].
    destruct (documentQuerySelector E id0) as [d |]; [| apply IH].
    destruct (tableGet tbl0 id0); [apply IH |].
    intros Hok id Hin. apply outcome_bind_inv in Hok.
    destruct Hok as [c [_ Hok]].
    destruct (IH _ _ Hok id Hin) as [Hold | Hnone]; [| right; exact Hnone].
    apply tableKeys_tableSet in Hold. destruct Hold as [Hold | ->]; auto.
Qed.

(** When every reference matches something inside the clone, the loop
    calls nothing and leaves the table as it was. *)
Lemma collectDefs_all_present (E : Env)
  (cloneNode' : SNode -> Options -> option bool -> M (option CNode))
  (clone : CNode) (options : Options) (uses : list CNode) :
  (forall use id,
      In use uses -> getAttribute "xlink:href" use = Some id ->
      truthy id = true -> querySelector id clone <> None) ->
  forall tbl, collectDefs E cloneNode' clone options uses tbl = ret tbl.
Proof.
  induction uses as [| use uses IH]; intros Hpresent tbl; [reflexivity |].
  cbn [collectDefs].
  assert (Hrest : collectDefs E cloneNode' clone options uses tbl = ret tbl).
  { apply IH. intros u id Hin. apply Hpresent. right. exact Hin. }
  destruct (getAttribute "xlink:href" use) as [id |] eqn:Hhref; [| exact Hrest].
  destruct (truthy id) eqn:Ht; [| exact Hrest].
  destruct (querySelector id clone) eqn:Hq; [exact Hrest |].
  exfalso. apply (Hpresent use id); auto. left. reflexivity.
Qed.

(** C8.  On a clone in which every reference of a use element already
    matches an element of the clone, the resolver makes no call, collects
    nothing and returns the clone as it is; and in any run, fulfilled with
    a table, no key of the table is a reference that matches an element of
    the clone. *)
Theorem ensureSVGSymbols_skips_present_definitions (E : Env)
  (cloneNode' : SNode -> Options -> option bool -> M (option CNode))
  (clone : CNode) (options : Options) :
  ((forall use id,
       In use (querySelectorAll "use" clone) ->
       getAttribute "xlink:href" use = Some id ->
       truthy id = true ->
       querySelector id clone <> None) ->
   collectDefs E cloneNode' clone options (querySelectorAll "use" clone) []
   = ret []
   /\ ensureSVGSymbols E cloneNode' clone options = ret clone)
  /\
  (forall tbl id,
      outcome (collectDefs E cloneNode' clone options
                 (querySelectorAll "use" clone) []) = Ok tbl ->
      querySelector id clone <> None ->
      ~ In id (tableKeys tbl)).
Proof.
  split.
  - intros Hpresent.
    pose proof (collectDefs_all_present E cloneNode' clone options
                  (querySelectorAll "use" clone) Hpresent []) as Hloop.
    split; [exact Hloop |].
    unfold ensureSVGSymbols. rewrite uses_of_clone.
    destruct (length (querySelectorAll "use" clone) =? 0)%nat; [reflexivity |].
    rewrite Hloop. reflexivity.
  - intros tbl id Hok Hpresent Hin.
    destruct (collectDefs_keys E cloneNode' clone options _ _ _ Hok id Hin)
      as [[] | Hnone].
    contradiction.
Qed.

Example danglingUse_resolved :
  let E := sampleEnv [htmlElement "html" [] [symbolA]] in
  outcome (ensureSVGSymbols E (cloneNode E 3) danglingUse emptyOptions)
  = Ok resolvedUse.
Proof. reflexivity. Qed.

Lemma ensureSVGSymbols_skips_present_definitions_witness :
  let E := sampleEnv [htmlElement "html" [] [symbolA]] in
  ensureSVGSymbols E (cloneNode E 3) resolvedUse emptyOptions = ret resolvedUse.
Proof.
  intros E.
  destruct (ensureSVGSymbols_skips_present_definitions E (cloneNode E 3)
              resolvedUse emptyOptions) as [H _].
  apply H. intros use id Hin Hhref _.
  cbn in Hin. destruct Hin as [<- | [<- | []]];
    cbn in Hhref; injection Hhref as <-; discriminate.
Defined.

Lemma allSome_values (t : Table) :
  allSome t -> exists nodes, tableValues t = map Some nodes.
Proof.
  induction t as [| [k v] t IH]; intros Hall.
  - exists []. reflexivity.
  - destruct IH as [nodes Hnodes].
    { intros k' Hin. apply (Hall k'). right. exact Hin. }
    destruct v as [c |].
    + exists (c :: nodes). cbn. f_equal. exact Hnodes.
    + exfalso. apply (Hall k). left. reflexivity.
Qed.

Lemma appendNodes_element (el : Elem) (st : InlineStyle) (ch nodes : list CNode) :
  appendNodes (CElem el st ch) (map Some nodes) = Ok (CElem el st (ch ++ nodes)).
Proof.
  revert ch. induction nodes as [| n nodes IH]; intros ch; cbn.
  - rewrite app_nil_r. reflexivity.
  - rewrite IH, <- app_assoc. reflexivity.
Qed.

(** C10.  When the loop of the resolver ends with a table that is not
    empty, the resolver appends, as the last child of the clone, one
    container built as follows: an element [svg] created in the XHTML
    namespace [http://www.w3.org/1999/xhtml], with that namespace as its
    [xmlns] attribute and the inline style position absolute, width 0,
    height 0, overflow hidden, display none, whose only child is an element
    [defs] created in the same XHTML namespace and holding the collected
    definitions in the order of the table. *)
Theorem ensureSVGSymbols_container_in_xhtml_namespace (E : Env) (fuel : nat)
  (clone : CNode) (options : Options) (tbl : Table) :
  outcome (collectDefs E (cloneNode E fuel) clone options
             (querySelectorAll "use" clone) []) = Ok tbl ->
  tbl <> [] ->
  exists el st ch nodes,
    clone = CElem el st ch
    /\ tableValues tbl = map Some nodes
    /\ nodes <> []
    /\ outcome (ensureSVGSymbols E (cloneNode E fuel) clone options)
       = Ok (CElem el st
               (ch ++
                [CElem (mkElem "http://www.w3.org/1999/xhtml" "svg"
                               OtherElement
                               [("xmlns", "http://www.w3.org/1999/xhtml")])
                       (mkStyle "" [("position", "absolute", "");
                                    ("width", "0", "");
                                    ("height", "0", "");
                                    ("overflow", "hidden", "");
                                    ("display", "none", "")])
                       [CElem (mkElem "http://www.w3.org/1999/xhtml" "defs"
                                      OtherElement [])
                              (mkStyle "" [])
                              nodes]])).
Proof.
  intros Hok Hne.
  destruct (collectDefs_calls E (cloneNode E fuel)
              (cloneNode_one_record E fuel)
              (fun node o => cloneNode_root_never_null E fuel node o
                               (Some true) eq_refl)
              clone options (querySelectorAll "use" clone) [])
    as [k [_ [_ [_ Hdone]]]].
  { intros id []. }
  destruct (Hdone tbl Hok) as [_ [_ Hall]].
  destruct (allSome_values tbl Hall) as [nodes Hnodes].
  assert (Hnodes_ne : nodes <> []).
  { intros ->. destruct tbl; [contradiction | discriminate]. }
  destruct clone as [d | el st ch].
  { cbn in Hok. injection Hok as <-. contradiction. }
  exists el, st, ch, nodes.
  split; [reflexivity | split; [exact Hnodes | split; [exact Hnodes_ne |]]].
  unfold ensureSVGSymbols. rewrite uses_of_clone.
  destruct (querySelectorAll "use" (CElem el st ch)) as [| use uses] eqn:Huses.
  { cbn in Hok. injection Hok as <-. contradiction. }
  cbn [length Nat.eqb].
  rewrite (outcome_bind_ok _ _ _ Hok). rewrite Hnodes.
  destruct nodes as [| n nodes]; [contradiction |].
  cbn [map length Nat.eqb negb].
  unfold symbolContainer.
  change (Some n :: map Some nodes) with (map Some (n :: nodes)).
  unfold createElementNS at 1. rewrite appendNodes_element.
  reflexivity.
Qed.

Lemma ensureSVGSymbols_container_in_xhtml_namespace_witness :
  let E := sampleEnv [htmlElement "html" [] [symbolA]] in
  exists el st ch nodes,
    danglingUse = CElem el st ch
    /\ nodes <> []
    /\ outcome (ensureSVGSymbols E (cloneNode E 3) danglingUse emptyOptions)
       = Ok (CElem el st
               (ch ++
                [CElem (mkElem xhtml "svg" OtherElement [("xmlns", xhtml)])
                       (mkStyle "" [("position", "absolute", "");
                                    ("width", "0", "");
                                    ("height", "0", "");
                                    ("overflow", "hidden", "");
                                    ("display", "none", "")])
                       [CElem (mkElem xhtml "defs" OtherElement [])
                              (mkStyle "" []) nodes]])).
Proof.
  intros E.
  destruct (ensureSVGSymbols_container_in_xhtml_namespace E 3 danglingUse
              emptyOptions [("#a", Some symbolAClone)])
    as [el [st [ch [nodes [H1 [_ [H3 H4]]]]]]].
  - reflexivity.
  - discriminate.
  - exists el, st, ch, nodes. split; [exact H1 | split; [exact H3 | exact H4]].
Defined.

(** ** Form-state transfer *)

Lemma getAttr_setAttr_same (name v : string) (attrs : list (string * string)) :
  getAttr name (setAttr name v attrs) = Some v.
Proof.
  induction attrs as [| [n x] attrs IH]; cbn.
  - rewrite String.eqb_refl. reflexivity.
  - destruct (n =? name) eqn:Hn; cbn.
    + rewrite String.eqb_refl. reflexivity.
    + rewrite Hn. exact IH.
Qed.

Lemma getAttr_setAttr_other (name name' v : string)
  (attrs : list (string * string)) :
  name <> name' ->
  getAttr name' (setAttr name v attrs) = getAttr name' attrs.
Proof.
  intros Hne. induction attrs as [| [n x] attrs IH]; cbn.
  - destruct (String.eqb_spec name name'); [contradiction | reflexivity].
  - destruct (String.eqb_spec n name) as [-> | Hn]; cbn.
    + destruct (String.eqb_spec name name'); [contradiction | reflexivity].
    + rewrite IH. reflexivity.
Qed.

Lemma selectOption_no_match (v : string) (ch : list CNode) :
  (forall c, In c ch -> getAttribute "value" c <> Some v) ->
  selectOption v ch = ch.
Proof.
  induction ch as [| c ch IH]; intros Hno; [reflexivity |].
  cbn [selectOption].
  assert (Hrest : selectOption v ch = ch).
  { apply IH. intros c' Hin. apply Hno. right. exact Hin. }
  rewrite Hrest.
  destruct c as [d | el st kids]; [reflexivity |].
  destruct (getAttribute "value" (CElem el st kids)) as [x |] eqn:Hx;
    [| reflexivity].
  destruct (String.eqb_spec v x) as [-> | _]; [| reflexivity].
  exfalso. apply (Hno (CElem el st kids)); [left; reflexivity | exact Hx].
Qed.

Lemma selectOption_first_match (v : string) (pre post : list CNode)
  (opt : CNode) :
  getAttribute "value" opt = Some v ->
  (forall c, In c pre -> getAttribute "value" c <> Some v) ->
  selectOption v (pre ++ opt :: post)
  = pre ++ setAttribute "selected" "" opt :: post.
Proof.
  intros Hopt. induction pre as [| c pre IH]; intros Hno.
  - cbn [app selectOption].
    destruct opt as [d | el st kids]; [discriminate |].
    rewrite Hopt, String.eqb_refl. reflexivity.
  - cbn [app selectOption].
    rewrite IH by (intros c' Hin; apply Hno; right; exact Hin).
    destruct c as [d | el st kids]; [reflexivity |].
    destruct (getAttribute "value" (CElem el st kids)) as [x |] eqn:Hx;
      [| reflexivity].
    destruct (String.eqb_spec v x) as [-> | _]; [| reflexivity].
    exfalso. apply (Hno (CElem el st kids)); [left; reflexivity | exact Hx].
Qed.

(** C9, as the code has it.  For a select whose current value is [v], the
    transfer gives the attribute [selected] to the first cloned child whose
    [value] attribute is [v] and leaves every other child exactly as the
    raw clone produced it, so that another option carries [selected]
    afterwards exactly when it already did; when no child's [value] is
    [v], the clone is left as it is. *)
Theorem cloneSelectValue_marks_first_match (nativeNode : SNode) (lv : Live)
  (el : Elem) (st : InlineStyle) :
  liveOf nativeNode = Some lv ->
  isInstanceOfElement nativeNode HTMLSelectElement = true ->
  (forall pre opt post,
      getAttribute "value" opt = Some (value lv) ->
      (forall c, In c pre -> getAttribute "value" c <> Some (value lv)) ->
      cloneSelectValue nativeNode (CElem el st (pre ++ opt :: post))
      = CElem el st (pre ++ setAttribute "selected" "" opt :: post)
      /\ getAttribute "selected" (setAttribute "selected" "" opt) = Some ""
      /\ getAttribute "value" (setAttribute "selected" "" opt)
         = Some (value lv))
  /\
  (forall ch,
      (forall c, In c ch -> getAttribute "value" c <> Some (value lv)) ->
      cloneSelectValue nativeNode (CElem el st ch) = CElem el st ch).
Proof.
  intros Hlive Hselect. split.
  - intros pre opt post Hopt Hno.
    unfold cloneSelectValue. rewrite Hselect, Hlive.
    rewrite (selectOption_first_match _ _ _ _ Hopt Hno).
    split; [reflexivity |].
    destruct opt as [d | el' st' kids]; [discriminate |]. cbn in *.
    split; [apply getAttr_setAttr_same |].
    rewrite getAttr_setAttr_other by discriminate. exact Hopt.
  - intros ch Hno. unfold cloneSelectValue. rewrite Hselect, Hlive.
    rewrite (selectOption_no_match _ _ Hno). reflexivity.
Qed.

Lemma cloneSelectValue_marks_first_match_witness :
  cloneSelectValue selectB (rawSelectClone [])
  = CElem (mkElem xhtml "select" HTMLSelectElement []) (mkStyle "" [])
          [optionClone "a" []; optionClone "b" [("selected", "")];
           optionClone "c" []]
  /\ cloneSelectValue (selectElement "z" []) (rawSelectClone [("selected", "")])
     = rawSelectClone [("selected", "")].
Proof.
  split.
  - destruct (cloneSelectValue_marks_first_match selectB
                (mkLive "" "" "" 0 0 "b" noStyle)
                (mkElem xhtml "select" HTMLSelectElement []) (mkStyle "" [])
                eq_refl eq_refl) as [H _].
    destruct (H [optionClone "a" []] (optionClone "b" []) [optionClone "c" []])
      as [Heq _].
    + reflexivity.
    + intros c [<- | []]. discriminate.
    + exact Heq.
  - destruct (cloneSelectValue_marks_first_match (selectElement "z" [])
                (mkLive "" "" "" 0 0 "z" noStyle)
                (mkElem xhtml "select" HTMLSelectElement []) (mkStyle "" [])
                eq_refl eq_refl) as [_ H].
    apply H. intros c [<- | [<- | [<- | []]]]; discriminate.
Defined.

(** The markup preselects [a]; the current value is [b].  After the
    transfer both [a] and [b] carry [selected]. *)
Lemma preselected_option_stays_selected :
  ~ onlyMatchSelected selectB (rawSelectClone [("selected", "")]).
Proof.
  intros H.
  specialize (H (mkLive "" "" "" 0 0 "b" noStyle)
                (optionClone "a" [("selected", "")]) eq_refl).
  cbn in H. discriminate H.
  - left. reflexivity.
  - discriminate.
Qed.

(** ** Fuel and order of settlement *)

Lemma agrees_refl {A} (strict : bool) (o : Outcome A) : agrees strict o o.
Proof. destruct o, strict; cbn; eauto. Qed.

Lemma agrees_bind {A B} (strict : bool) (m1 m2 : M A) (k1 k2 : A -> M B) :
  agrees strict (outcome m1) (outcome m2) ->
  (forall a, agrees strict (outcome (k1 a)) (outcome (k2 a))) ->
  agrees strict (outcome (x <- m1 ;; k1 x)) (outcome (x <- m2 ;; k2 x)).
Proof.
  destruct m1 as [t1 [a | e |]], m2 as [t2 o2]; cbn; intros Hm Hk.
  - subst o2. specialize (Hk a).
    destruct (k1 a), (k2 a). exact Hk.
  - destruct Hm as [e' ->]. exists e'. reflexivity.
  - destruct strict; [subst o2; reflexivity | exact I].
Qed.

Lemma agrees_lift_bind {A B} (strict : bool) (o : Outcome A)
  (k1 k2 : A -> M B) :
  (forall a, agrees strict (outcome (k1 a)) (outcome (k2 a))) ->
  agrees strict (outcome (x <- lift o ;; k1 x)) (outcome (x <- lift o ;; k2 x)).
Proof. intros Hk. apply agrees_bind; [apply agrees_refl | exact Hk]. Qed.

Lemma firstRejection_In {A} (outs : list (Outcome A)) (order : list nat)
  (e : Error) :
  firstRejection outs order = Some e -> In (Throw e) outs.
Proof.
  induction order as [| i order IH]; cbn; [discriminate |].
  destruct (nth_error outs i) as [[a | e' |] |] eqn:Hnth; auto.
  intros [= <-]. eapply nth_error_In. exact Hnth.
Qed.

Lemma allValues_None_no_throw {A} (outs : list (Outcome A)) :
  allValues outs = None -> (forall e, ~ In (Throw e) outs) ->
  In Diverge outs.
Proof.
  induction outs as [| o outs IH]; cbn; [discriminate |].
  intros Hall Hno. destruct o as [a | e |].
  - right. apply IH.
    + destruct (allValues outs); [discriminate | reflexivity].
    + intros e Hin. apply (Hno e). right. exact Hin.
  - exfalso. apply (Hno e). left. reflexivity.
  - left. reflexivity.
Qed.

(** The join of promises that agree one by one agrees, whatever the two
    orders of settlement. *)
Lemma agrees_joinAll {A} (strict : bool) (order1 order2 : list nat)
  (outs1 outs2 : list (Outcome A)) :
  Forall2 (agrees strict) outs1 outs2 ->
  agrees strict (joinAll order1 outs1) (joinAll order2 outs2).
Proof.
  intros Hall.
  assert (Hthrow : forall e, In (Throw e) outs1 ->
                             exists e', In (Throw e') outs2).
  { clear order1 order2. induction Hall as [| o1 o2 l1 l2 Ho _ IH]; cbn.
    - intros e [].
    - intros e [-> | Hin].
      + destruct Ho as [e' ->]. exists e'. left. reflexivity.
      + destruct (IH e Hin) as [e' He']. exists e'. right. exact He'. }
  assert (Hvals : forall l, allValues outs1 = Some l -> outs2 = map Ok l).
  { clear order1 order2 Hthrow. induction Hall as [| o1 o2 l1 l2 Ho _ IH]; cbn.
    - intros l [= <-]. reflexivity.
    - intros l. destruct o1 as [a | e |]; try discriminate.
      destruct (allValues l1) as [l' |]; [| discriminate].
      intros [= <-]. cbn in Ho. subst o2. cbn. f_equal. apply IH. reflexivity. }
  assert (Hdiv : strict = true -> In Diverge outs1 ->
                 (forall e, ~ In (Throw e) outs1) ->
                 In Diverge outs2 /\ forall e, ~ In (Throw e) outs2).
  { clear order1 order2 Hthrow Hvals. intros -> Hin Hno. split.
    - induction Hall as [| o1 o2 l1 l2 Ho _ IH]; [destruct Hin |].
      destruct Hin as [-> | Hin].
      + cbn in Ho. subst o2. left. reflexivity.
      + right. apply IH; [exact Hin |].
        intros e H. apply (Hno e). right. exact H.
    - clear Hin. induction Hall as [| o1 o2 l1 l2 Ho _ IH]; [intros e [] |].
      intros e [-> | H].
      + destruct o1 as [a | e1 |]; cbn in Ho; try discriminate.
        apply (Hno e1). left. reflexivity.
      + revert e H. apply IH. intros e H. apply (Hno e). right. exact H. }
  unfold joinAll at 1.
  destruct (firstRejection outs1 _) as [e |] eqn:Hfirst.
  - apply firstRejection_In in Hfirst.
    destruct (Hthrow e Hfirst) as [e' He'].
    destruct (joinAll_throws order2 outs2 e' He') as [e'' ->].
    cbn. eauto.
  - destruct (allValues outs1) as [l |] eqn:Hl.
    + cbn. rewrite (Hvals l eq_refl). apply joinAll_of_values.
    + cbn. destruct strict; [| exact I].
      assert (Hno : forall e, ~ In (Throw e) outs1).
      { intros e Hin.
        destruct (joinAll_throws order1 outs1 e Hin) as [e' He'].
        unfold joinAll in He'. rewrite Hfirst, Hl in He'. discriminate. }
      destruct (Hdiv eq_refl (allValues_None_no_throw _ Hl Hno) Hno)
        as [Hin2 Hno2].
      unfold joinAll. rewrite (firstRejection_none _ _ Hno2).
      destruct (allValues outs2) as [l2 |] eqn:Hl2; [| reflexivity].
      apply allValues_map_Ok in Hl2. subst outs2.
      apply in_map_iff in Hin2. destruct Hin2 as [a [Ha _]]. discriminate.
Qed.

Section Agreement.

Variables E1 E2 : Env.
Variable strict : bool.
Hypothesis same : sameWorld E1 E2.

Variables cloneNode1 cloneNode2
  : SNode -> Options -> option bool -> M (option CNode).
Hypothesis calls_agree :
  forall node options isRoot,
    agrees strict (outcome (cloneNode1 node options isRoot))
                  (outcome (cloneNode2 node options isRoot)).

Lemma cloneVideoElement_same (video : SNode) (options : Options) :
  cloneVideoElement E1 video options = cloneVideoElement E2 video options.
Proof.
  destruct same as [_ [Hm [Hr [Hi _]]]].
  unfold cloneVideoElement. rewrite Hm, Hr, Hi. reflexivity.
Qed.

Lemma decorate_same (nativeNode : SNode) (clonedNode : CNode) :
  decorate E1 nativeNode clonedNode = decorate E2 nativeNode clonedNode.
Proof.
  destruct same as [_ [_ [_ [_ [Hp [Hf [Hs Ht]]]]]]].
  unfold decorate, cloneCSSStyle, targetStyle, rewriteValue, cloneInputValue,
    setInnerHTML.
  rewrite Hp, Hf, Hs, Ht. reflexivity.
Qed.

Lemma documentQuerySelector_same (sel : string) :
  documentQuerySelector E1 sel = documentQuerySelector E2 sel.
Proof.
  destruct same as [Hd _]. unfold documentQuerySelector. rewrite Hd.
  reflexivity.
Qed.

Lemma agrees_cloneIFrameElement (iframe : SNode) :
  agrees strict (outcome (cloneIFrameElement cloneNode1 iframe))
                (outcome (cloneIFrameElement cloneNode2 iframe)).
Proof.
  rewrite !cloneIFrameElement_cases.
  destruct (contentDocumentBody iframe) as [| | | body];
    try apply agrees_refl.
  pose proof (calls_agree body emptyOptions (Some true)) as H.
  destruct (cloneNode1 body emptyOptions (Some true)) as [t1 [c | e |]],
           (cloneNode2 body emptyOptions (Some true)) as [t2 o2];
    cbn in H |- *.
  - subst o2. reflexivity.
  - destruct H as [e' ->]. reflexivity.
  - destruct strict; [subst o2; reflexivity | exact I].
Qed.

Lemma agrees_cloneSingleNode (node : SNode) (options : Options) :
  agrees strict (outcome (cloneSingleNode E1 cloneNode1 node options))
                (outcome (cloneSingleNode E2 cloneNode2 node options)).
Proof.
  unfold cloneSingleNode.
  destruct (isInstanceOfElement node HTMLCanvasElement); [apply agrees_refl |].
  destruct (isInstanceOfElement node HTMLVideoElement).
  { rewrite cloneVideoElement_same. apply agrees_refl. }
  destruct (isInstanceOfElement node HTMLIFrameElement);
    [apply agrees_cloneIFrameElement | apply agrees_refl].
Qed.

Lemma agrees_cloneChildren (nativeNode : SNode) (clonedNode : CNode)
  (options : Options) :
  agrees strict
    (outcome (cloneChildren E1 cloneNode1 nativeNode clonedNode options))
    (outcome (cloneChildren E2 cloneNode2 nativeNode clonedNode options)).
Proof.
  unfold cloneChildren. apply agrees_lift_bind. intros children.
  destruct ((length children =? 0)%nat
            || isInstanceOfElement nativeNode HTMLVideoElement);
    [apply agrees_refl |].
  apply agrees_bind; [| intros l; apply agrees_refl].
  unfold promiseAll, outcome at 1 3. cbn [snd].
  apply agrees_joinAll. rewrite !map_map.
  induction children as [| child children IH]; constructor; auto.
Qed.

Lemma agrees_collectDefs (clone : CNode) (options : Options)
  (uses : list CNode) :
  forall tbl,
    agrees strict
      (outcome (collectDefs E1 cloneNode1 clone options uses tbl))
      (outcome (collectDefs E2 cloneNode2 clone options uses tbl)).
Proof.
  induction uses as [| use uses IH]; intros tbl; [apply agrees_refl |].
  cbn [collectDefs].
  destruct (getAttribute "xlink:href" use) as [id |]; [| apply IH].
  destruct (truthy id); [| apply IH].
  destruct (querySelector id clone); [apply IH |].
  rewrite documentQuerySelector_same.
  destruct (documentQuerySelector E2 id) as [d |]; [| apply IH].
  destruct (tableGet tbl id); [apply IH |].
  apply agrees_bind; [apply calls_agree | intros c; apply IH].
Qed.

Lemma agrees_ensureSVGSymbols (clone : CNode) (options : Options) :
  agrees strict (outcome (ensureSVGSymbols E1 cloneNode1 clone options))
                (outcome (ensureSVGSymbols E2 cloneNode2 clone options)).
Proof.
  unfold ensureSVGSymbols.
  destruct (length (if isElement clone then querySelectorAll "use" clone
                    else []) =? 0)%nat; [apply agrees_refl |].
  apply agrees_bind; [apply agrees_collectDefs |].
  intros tbl. apply agrees_refl.
Qed.

Lemma agrees_cloneSteps (node : SNode) (options : Options) :
  agrees strict (outcome (cloneSteps E1 cloneNode1 node options))
                (outcome (cloneSteps E2 cloneNode2 node options)).
Proof.
  unfold cloneSteps.
  apply agrees_bind; [apply agrees_cloneSingleNode |].
  intros [c |]; [| apply agrees_refl].
  apply agrees_bind; [apply agrees_cloneChildren |].
  intros c'. rewrite decorate_same. apply agrees_lift_bind.
  intros d. apply agrees_ensureSVGSymbols.
Qed.

End Agreement.

(** More fuel, or another order of settlement, does not change how a call
    that settles ends: a fulfilled call stays fulfilled with the same
    clone and a rejected one stays rejected. *)
Lemma cloneNode_agrees (strict : bool) (E1 E2 : Env) :
  sameWorld E1 E2 ->
  forall fuel1 fuel2,
    fuel1 <= fuel2 ->
    (strict = true -> fuel1 = fuel2) ->
    forall node options isRoot,
      agrees strict (outcome (cloneNode E1 fuel1 node options isRoot))
                    (outcome (cloneNode E2 fuel2 node options isRoot)).
Proof.
  intros Hsame. induction fuel1 as [| fuel1 IH]; intros fuel2 Hle Hstrict
    node options isRoot; rewrite !cloneNode_unfold, !outcome_recorded.
  - destruct (rejected node options isRoot); [reflexivity |].
    destruct strict; [| exact I].
    rewrite <- (Hstrict eq_refl). reflexivity.
  - destruct fuel2 as [| fuel2]; [lia |].
    destruct (rejected node options isRoot); [reflexivity |].
    apply agrees_bind; [| intros c; apply agrees_refl].
    apply agrees_cloneSteps; [exact Hsame |].
    apply IH; [lia |]. intros H. specialize (Hstrict H). lia.
Qed.

Lemma sameWorld_refl (E : Env) : sameWorld E E.
Proof. repeat split. Qed.

Lemma sameWorld_withOrder (E : Env) (order : SNode -> list nat) :
  sameWorld E (withOrder E order).
Proof. repeat split. Qed.

(** A fulfilled call is fulfilled with the same clone under any larger
    fuel: the bound on the depth is not seen in a result. *)
Lemma cloneNode_fuel_monotone (E : Env) (fuel extra : nat) (node : SNode)
  (options : Options) (isRoot : option bool) (c : option CNode) :
  outcome (cloneNode E fuel node options isRoot) = Ok c ->
  outcome (cloneNode E (fuel + extra) node options isRoot) = Ok c.
Proof.
  intros H.
  pose proof (cloneNode_agrees false E E (sameWorld_refl E) fuel
                (fuel + extra) (Nat.le_add_r _ _)
                (fun H => ltac:(discriminate H)) node options isRoot) as Hag.
  rewrite H in Hag. exact Hag.
Qed.

(** X7.  Under another order of settlement of the clones of children,
    at every join of the tree, a call of [cloneNode] ends the same way:
    fulfilled with the same clone, rejected, or not settled. *)
Lemma cloneNode_any_order (E : Env) (order : SNode -> list nat) (fuel : nat)
  (node : SNode) (options : Options) (isRoot : option bool) :
  agrees true (outcome (cloneNode E fuel node options isRoot))
              (outcome (cloneNode (withOrder E order) fuel node options isRoot)).
Proof.
  apply cloneNode_agrees; auto using sameWorld_withOrder.
Qed.

Lemma sameWorld_sym (E1 E2 : Env) : sameWorld E1 E2 -> sameWorld E2 E1.
Proof.
  intros [H1 [H2 [H3 [H4 [H5 [H6 [H7 H8]]]]]]].
  repeat split; symmetry; assumption.
Qed.

Lemma fulfilled_in_any_world (E1 E2 : Env) (fuel : nat) (options : Options)
  (kids : list SNode) (clones : list (option CNode)) :
  sameWorld E1 E2 ->
  map (fun kid => outcome (cloneNode E1 fuel kid options None)) kids
  = map Ok clones ->
  map (fun kid => outcome (cloneNode E2 fuel kid options None)) kids
  = map Ok clones.
Proof.
  intros Hsame. revert clones.
  induction kids as [| kid kids IH]; intros [| c clones]; cbn;
    try discriminate; [reflexivity |].
  intros H. injection H as Hc Hrest.
  pose proof (cloneNode_agrees true E1 E2 Hsame fuel fuel (le_n _)
                (fun _ => eq_refl) kid options None) as Hag.
  rewrite Hc in Hag. cbn in Hag. rewrite Hag, (IH clones Hrest). reflexivity.
Qed.

(** C5.  For a node that is not a video and whose resolved child list is
    not empty: when the clones of all the children are fulfilled,
    [cloneChildren] yields the clone with the clones of the children
    appended after the children it already had, in the order of the
    resolved child list, a child whose clone is null leaving no trace; this
    is so for every order in which clones settle, here and anywhere below;
    and [cloneChildren] is fulfilled in no other way. *)
Theorem cloneChildren_keeps_order (E : Env) (fuel : nat)
  (nativeNode : SNode) (el : Elem) (st : InlineStyle) (ch : list CNode)
  (options : Options) (kids : list SNode)
  (Hkids : resolvedChildren nativeNode = Ok kids)
  (Hne : kids <> [])
  (Hvideo : isInstanceOfElement nativeNode HTMLVideoElement = false) :
  (forall clones,
      map (fun kid => outcome (cloneNode E fuel kid options None)) kids
      = map Ok clones ->
      forall order,
        outcome (cloneChildren (withOrder E order)
                   (cloneNode (withOrder E order) fuel) nativeNode
                   (CElem el st ch) options)
        = Ok (CElem el st (ch ++ present clones)))
  /\
  (forall order result,
      outcome (cloneChildren (withOrder E order)
                 (cloneNode (withOrder E order) fuel) nativeNode
                 (CElem el st ch) options)
      = Ok result ->
      exists clones,
        map (fun kid => outcome (cloneNode E fuel kid options None)) kids
        = map Ok clones
        /\ result = CElem el st (ch ++ present clones)).
Proof.
  split.
  - intros clones Hclones order.
    destruct (cloneChildren_appends_in_order (withOrder E order)
                (cloneNode (withOrder E order) fuel) nativeNode el st ch
                options kids Hkids Hne Hvideo) as [H _].
    specialize (H clones
                  (fulfilled_in_any_world E (withOrder E order) fuel options
                     kids clones (sameWorld_withOrder E order) Hclones)
                  order).
    exact H.
  - intros order result Hres.
    destruct (cloneChildren_appends_in_order (withOrder E order)
                (cloneNode (withOrder E order) fuel) nativeNode el st ch
                options kids Hkids Hne Hvideo) as [_ H].
    destruct (H order result Hres) as [clones [Hclones Hresult]].
    exists clones. split; [| exact Hresult].
    apply (fulfilled_in_any_world (withOrder E order) E); [| exact Hclones].
    apply sameWorld_sym, sameWorld_withOrder.
Qed.

Lemma cloneChildren_keeps_order_witness :
  let a := htmlElement "p" [("id", "a")] [] in
  let b := htmlElement "p" [("id", "b"); ("class", "skip")] [] in
  let c := htmlElement "p" [("id", "c")] [] in
  let parent := htmlElement "div" [] [a; b; c] in
  let E := withOrder (sampleEnv []) (fun _ => [2; 0; 1]) in
  outcome (cloneChildren E (cloneNode E 1) parent
             (cloneElement xhtml "div" [] [CText "x"]) noSkipped)
  = Ok (cloneElement xhtml "div" []
          [CText "x";
           cloneElement xhtml "p" [("id", "a")] [];
           cloneElement xhtml "p" [("id", "c")] []]).
Proof.
  intros a b c parent E.
  destruct (cloneChildren_keeps_order (sampleEnv []) 1 parent
              (mkElem xhtml "div" OtherElement []) (mkStyle "" [])
              [CText "x"] noSkipped [a; b; c])
    as [H _].
  - reflexivity.
  - discriminate.
  - reflexivity.
  - apply (H [Some (cloneElement xhtml "p" [("id", "a")] []); None;
              Some (cloneElement xhtml "p" [("id", "c")] [])]).
    reflexivity.
Defined.

(** ** Further properties of the functions *)

(** *** Videos and text *)

Lemma one_interface (node : SNode) (a b : Category) :
  isInstanceOfElement node a = true -> a <> b ->
  isInstanceOfElement node b = false.
Proof.
  destruct node as [d | el lv kids sh asg doc]; [discriminate |].
  unfold isInstanceOfElement.
  destruct (interface el), a; try discriminate; intros _ Hne;
    destruct b; try reflexivity; contradiction.
Qed.

(** X1.  A video with a current source is cloned as the image of the
    frame drawn at its client width and height, whatever its poster and
    whatever the resource conversion would do; and for any video
    [cloneChildren] returns the clone as it is and clones none of the
    video's children. *)
Theorem video_frame_without_children (E : Env)
  (cloneNode' : SNode -> Options -> option bool -> M (option CNode))
  (el : Elem) (lv : Live) (kids : list SNode)
  (shadow assigned : option (list SNode)) (doc : DocAccess SNode)
  (options : Options) :
  let video := SElem el lv kids shadow assigned doc in
  interface el = HTMLVideoElement ->
  (truthy (currentSrc lv) = true ->
   cloneSingleNode E cloneNode' video options
   = ret (Some (imageOf (drawImage E lv (clientWidth lv) (clientHeight lv)))))
  /\ (forall clonedNode,
         cloneChildren E cloneNode' video clonedNode options = ret clonedNode).
Proof.
  intros video Hcat.
  assert (Hvideo : isInstanceOfElement video HTMLVideoElement = true).
  { unfold video, isInstanceOfElement. rewrite Hcat. reflexivity. }
  split.
  - intros Hsrc. unfold cloneSingleNode.
    rewrite (one_interface video HTMLVideoElement HTMLCanvasElement Hvideo)
      by discriminate.
    rewrite Hvideo. unfold cloneVideoElement, video. cbn [liveOf].
    rewrite Hsrc. reflexivity.
  - intros clonedNode. unfold cloneChildren.
    assert (Hkids : exists l, resolvedChildren video = Ok l).
    { unfold resolvedChildren, video. fold video.
      rewrite (one_interface video HTMLVideoElement HTMLIFrameElement Hvideo)
        by discriminate.
      destruct (isSlotElement video), assigned; eauto. }
    destruct Hkids as [l ->]. cbn [lift bind app].
    rewrite Hvideo, orb_true_r. reflexivity.
Qed.

Lemma video_frame_without_children_witness :
  let video :=
    SElem (mkElem xhtml "video" HTMLVideoElement [])
          (mkLive "" "movie.mp4" "missing.png" 640 360 "" noStyle)
          [htmlElement "source" [] []] None None NoDocument in
  cloneSingleNode (sampleEnv []) (cloneNode (sampleEnv []) 0) video emptyOptions
  = ret (Some (imageOf "data:image/png;base64,frame")).
Proof.
  intros video.
  destruct (video_frame_without_children (sampleEnv [])
              (cloneNode (sampleEnv []) 0)
              (mkElem xhtml "video" HTMLVideoElement [])
              (mkLive "" "movie.mp4" "missing.png" 640 360 "" noStyle)
              [htmlElement "source" [] []] None None NoDocument emptyOptions
              eq_refl) as [H _].
  apply H. reflexivity.
Defined.

(** X2.  A text node that the filter does not reject is cloned as the same
    text: no child is looked for, no style is copied, no symbol is
    resolved, no further call is made, and the call is fulfilled. *)
Theorem text_node_cloned_as_is (E : Env) (fuel : nat) (data : string)
  (options : Options) (isRoot : option bool) :
  rejected (SText data) options isRoot = false ->
  cloneNode E (S fuel) (SText data) options isRoot
  = ([Call (SText data) options isRoot (consulted options isRoot)
           (Ok (Some (CText data))) []],
     Ok (Some (CText data))).
Proof.
  intros Hrej. rewrite cloneNode_unfold. rewrite Hrej. reflexivity.
Qed.

Lemma text_node_cloned_as_is_witness :
  outcome (cloneNode (sampleEnv []) 1 (SText "hello") noVideos None)
  = Ok (Some (CText "hello")).
Proof.
  rewrite (text_node_cloned_as_is (sampleEnv []) 0 "hello" noVideos None);
    reflexivity.
Defined.

(** *** Form values and computed style *)

(** X3.  For an input, the transfer writes the live value into the
    [value] attribute of the clone and changes no other attribute, nor the
    style, nor the children; for a text area it assigns the live value to
    the [innerHTML] of the clone, whose children become the one text node
    the HTML parser makes of that value (none when it makes the empty
    text), and changes no attribute; for any other node it changes
    nothing. *)
Theorem cloneInputValue_transfers_live_value (E : Env) (nativeNode : SNode)
  (el : Elem) (st : InlineStyle) (ch : list CNode) :
  (forall lv,
      liveOf nativeNode = Some lv ->
      isInstanceOfElement nativeNode HTMLInputElement = true ->
      exists el',
        cloneInputValue E nativeNode (CElem el st ch) = CElem el' st ch
        /\ getAttr "value" (attributes el') = Some (value lv)
        /\ (forall name, name <> "value" ->
                         getAttr name (attributes el')
                         = getAttr name (attributes el))
        /\ namespaceURI el' = namespaceURI el
        /\ localName el' = localName el
        /\ interface el' = interface el)
  /\
  (forall lv,
      liveOf nativeNode = Some lv ->
      isInstanceOfElement nativeNode HTMLTextAreaElement = true ->
      cloneInputValue E nativeNode (CElem el st ch)
      = CElem el st (if truthy (parsedText E (value lv))
                     then [CText (parsedText E (value lv))] else []))
  /\
  (isInstanceOfElement nativeNode HTMLInputElement = false ->
   isInstanceOfElement nativeNode HTMLTextAreaElement = false ->
   forall clonedNode, cloneInputValue E nativeNode clonedNode = clonedNode).
Proof.
  split; [| split].
  - intros lv Hlive Hinput. unfold cloneInputValue.
    rewrite (one_interface _ _ HTMLTextAreaElement Hinput) by discriminate.
    rewrite Hinput, Hlive. cbn [setAttribute].
    eexists. split; [reflexivity |]. cbn.
    split; [apply getAttr_setAttr_same |].
    split; [| repeat split].
    intros name Hne. apply getAttr_setAttr_other. congruence.
  - intros lv Hlive Harea. unfold cloneInputValue.
    rewrite (one_interface _ _ HTMLInputElement Harea) by discriminate.
    rewrite Harea, Hlive. reflexivity.
  - intros Hinput Harea clonedNode. unfold cloneInputValue.
    rewrite Hinput, Harea. reflexivity.
Qed.

Lemma cloneInputValue_transfers_live_value_witness :
  let input :=
    SElem (mkElem xhtml "input" HTMLInputElement [("type", "text")])
          (mkLive "" "" "" 0 0 "typed" noStyle) [] None None NoDocument in
  let area :=
    SElem (mkElem xhtml "textarea" HTMLTextAreaElement [("rows", "2")])
          (mkLive "" "" "" 0 0 "typed" noStyle) [] None None NoDocument in
  (exists el',
      cloneInputValue (sampleEnv []) input (shallowClone input)
      = CElem el' (mkStyle "" []) []
      /\ getAttr "value" (attributes el') = Some "typed"
      /\ getAttr "type" (attributes el') = Some "text")
  /\ cloneInputValue (sampleEnv []) area (shallowClone area)
     = CElem (mkElem xhtml "textarea" HTMLTextAreaElement [("rows", "2")])
             (mkStyle "" []) [CText "typed"].
Proof.
  intros input area. split.
  - destruct (cloneInputValue_transfers_live_value (sampleEnv []) input
                (mkElem xhtml "input" HTMLInputElement [("type", "text")])
                (mkStyle "" []) []) as [H _].
    destruct (H (mkLive "" "" "" 0 0 "typed" noStyle) eq_refl eq_refl)
      as [el' [Heq [Hvalue [Hother _]]]].
    exists el'. split; [exact Heq | split; [exact Hvalue |]].
    rewrite Hother by discriminate. reflexivity.
  - destruct (cloneInputValue_transfers_live_value (sampleEnv []) area
                (mkElem xhtml "textarea" HTMLTextAreaElement [("rows", "2")])
                (mkStyle "" []) []) as [_ [H _]].
    exact (H (mkLive "" "" "" 0 0 "typed" noStyle) eq_refl eq_refl).
Defined.

Lemma getDecl_setDecl_same (name v prio : string) (ds : list Decl) :
  getDecl name (setDecl name v prio ds) = Some (v, prio).
Proof.
  induction ds as [| [[n x] p] ds IH]; cbn.
  - rewrite String.eqb_refl. reflexivity.
  - destruct (n =? name) eqn:Hn; cbn.
    + rewrite String.eqb_refl. reflexivity.
    + rewrite Hn. exact IH.
Qed.

Lemma getDecl_setDecl_other (name name' v prio : string) (ds : list Decl) :
  name <> name' ->
  getDecl name' (setDecl name v prio ds) = getDecl name' ds.
Proof.
  intros Hne. induction ds as [| [[n x] p] ds IH]; cbn.
  - destruct (String.eqb_spec name name'); [contradiction | reflexivity].
  - destruct (String.eqb_spec n name) as [-> | Hn]; cbn.
    + destruct (String.eqb_spec name name'); [contradiction | reflexivity].
    + rewrite IH. reflexivity.
Qed.

(** The loop of [cloneCSSStyle] touches the declarations only. *)
Lemma setProperty_loop (f : string -> string -> string) (props : list Decl)
  (el : Elem) (st : InlineStyle) (ch : list CNode) :
  fold_left (fun target '(name, v, prio) => setProperty name (f name v) prio target)
            props (CElem el st ch)
  = CElem el
          (mkStyle (cssText st)
             (fold_left (fun ds '(name, v, prio) => setDecl name (f name v) prio ds)
                        props (decls st)))
          ch.
Proof.
  revert st. induction props as [| [[n v] p] props IH]; intros st; cbn.
  - destruct st; reflexivity.
  - rewrite IH. reflexivity.
Qed.

Lemma setDecl_loop_other (f : string -> string -> string) (props : list Decl)
  (name : string) :
  ~ In name (map declName props) ->
  forall ds,
    getDecl name
      (fold_left (fun ds '(n, v, prio) => setDecl n (f n v) prio ds) props ds)
    = getDecl name ds.
Proof.
  induction props as [| [[n v] p] props IH]; intros Hnot ds; cbn;
    [reflexivity |].
  rewrite IH by (intros H; apply Hnot; right; exact H).
  apply getDecl_setDecl_other. intros ->. apply Hnot. left. reflexivity.
Qed.

Lemma setDecl_loop_same (f : string -> string -> string) (props : list Decl)
  (name v prio : string) :
  NoDup (map declName props) ->
  In (name, v, prio) props ->
  forall ds,
    getDecl name
      (fold_left (fun ds '(n, v, prio) => setDecl n (f n v) prio ds) props ds)
    = Some (f name v, prio).
Proof.
  induction props as [| [[n x] p] props IH]; intros Hnd Hin ds; [destruct Hin |].
  cbn in Hnd. inversion Hnd as [| ? ? Hfresh Hnd']; subst. cbn [fold_left].
  destruct Hin as [Heq | Hin].
  - injection Heq as -> -> ->.
    rewrite setDecl_loop_other by exact Hfresh.
    apply getDecl_setDecl_same.
  - apply IH; assumption.
Qed.

(** X4.  What [cloneCSSStyle] assigns to the inline style of the clone.
    On a clone without a style object it assigns nothing and returns,
    before the computed style is even read.  On a clone with one, when
    the computed style has a compact text, it assigns that text to
    [cssText] and then the transform origin, and no property one by one.
    Otherwise, the computed style naming each property once, it assigns to
    every computed property its priority and its value as rewritten by
    the switch, which for a name other than [font-size], [display] and
    [d] is the very value computed; it assigns nothing to any other
    property and leaves [cssText], the attributes the model keeps and the
    children as they were. *)
Theorem cloneCSSStyle_assigns_computed_style (E : Env) (nativeNode : SNode)
  (el : Elem) (st : InlineStyle) (ch : list CNode) :
  (hasStyle E el = false ->
   cloneCSSStyle E nativeNode (CElem el st ch) = Ok (CElem el st ch))
  /\
  (forall lv,
      hasStyle E el = true ->
      liveOf nativeNode = Some lv ->
      truthy (cs_cssText (computedStyle lv)) = true ->
      cloneCSSStyle E nativeNode (CElem el st ch)
      = Ok (CElem el
              (mkStyle (cs_cssText (computedStyle lv))
                 [("transform-origin",
                   cs_transformOrigin (computedStyle lv), "")])
              ch))
  /\
  (forall lv,
      hasStyle E el = true ->
      liveOf nativeNode = Some lv ->
      truthy (cs_cssText (computedStyle lv)) = false ->
      NoDup (map declName (cs_props (computedStyle lv))) ->
      exists st',
        cloneCSSStyle E nativeNode (CElem el st ch) = Ok (CElem el st' ch)
        /\ cssText st' = cssText st
        /\ (forall name v prio,
               In (name, v, prio) (cs_props (computedStyle lv)) ->
               getDecl name (decls st')
               = Some (rewriteValue E nativeNode (CElem el st ch) name v, prio))
        /\ (forall name v prio,
               In (name, v, prio) (cs_props (computedStyle lv)) ->
               name <> "font-size" -> name <> "display" -> name <> "d" ->
               getDecl name (decls st') = Some (v, prio))
        /\ (forall name,
               ~ In name (map declName (cs_props (computedStyle lv))) ->
               getDecl name (decls st') = getDecl name (decls st))).
Proof.
  split; [| split].
  - intros Hstyle. unfold cloneCSSStyle, targetStyle. rewrite Hstyle.
    reflexivity.
  - intros lv Hstyle Hlive Htext. unfold cloneCSSStyle, targetStyle.
    rewrite Hstyle, Hlive, Htext. reflexivity.
  - intros lv Hstyle Hlive Htext Hnd. unfold cloneCSSStyle, targetStyle.
    rewrite Hstyle, Hlive, Htext. cbn [negb].
    rewrite (setProperty_loop (rewriteValue E nativeNode (CElem el st ch))).
    eexists. split; [reflexivity |]. cbn [cssText decls].
    split; [reflexivity | split; [| split]].
    + intros name v prio Hin. apply setDecl_loop_same; assumption.
    + intros name v prio Hin H1 H2 H3.
      rewrite (setDecl_loop_same _ _ name v prio Hnd Hin).
      unfold rewriteValue.
      destruct (String.eqb_spec name "font-size"); [contradiction |].
      destruct (String.eqb_spec name "display"); [contradiction |].
      destruct (String.eqb_spec name "d"); [contradiction |].
      reflexivity.
    + intros name Hnot. apply setDecl_loop_other. exact Hnot.
Qed.

Lemma cloneCSSStyle_assigns_computed_style_witness :
  let frame :=
    SElem (mkElem xhtml "iframe" HTMLIFrameElement [])
          (mkLive "" "" "" 0 0 ""
             (mkComputed "" "50% 50%"
                [("color", "red", "important"); ("display", "inline", "")]))
          [] None None NoDocument in
  (exists st',
      cloneCSSStyle (sampleEnv []) frame (shallowClone frame)
      = Ok (CElem (mkElem xhtml "iframe" HTMLIFrameElement []) st' [])
      /\ getDecl "color" (decls st') = Some ("red", "important")
      /\ getDecl "display" (decls st') = Some ("block", ""))
  /\ cloneCSSStyle styleLessEnv (SText "t") (shallowClone frame)
     = Ok (shallowClone frame).
Proof.
  intros frame. split.
  - destruct (cloneCSSStyle_assigns_computed_style (sampleEnv []) frame
                (mkElem xhtml "iframe" HTMLIFrameElement []) (mkStyle "" []) [])
      as [_ [_ H]].
    destruct (H (mkLive "" "" "" 0 0 ""
                   (mkComputed "" "50% 50%"
                      [("color", "red", "important"); ("display", "inline", "")])))
      as [st' [Heq [_ [Hrewritten [Hverbatim _]]]]].
    + reflexivity.
    + reflexivity.
    + reflexivity.
    + repeat constructor; cbn; intuition discriminate.
    + exists st'. split; [exact Heq | split].
      * apply (Hverbatim "color" "red" "important"); [left; reflexivity | | |];
          discriminate.
      * rewrite (Hrewritten "display" "inline" ""); [reflexivity |].
        right. left. reflexivity.
  - destruct (cloneCSSStyle_assigns_computed_style styleLessEnv
                (SText "t")
                (mkElem xhtml "iframe" HTMLIFrameElement []) (mkStyle "" []) [])
      as [H _].
    apply H. reflexivity.
Defined.

(** *** Which calls are made *)

Lemma trace_bind {A B} (m : M A) (k : A -> M B) (c : CallTree) :
  In c (trace (x <- m ;; k x)) ->
  In c (trace m) \/ exists a, In c (trace (k a)).
Proof.
  destruct m as [t [a | e |]]; cbn; auto.
  destruct (k a) as [t' r] eqn:Hk. cbn. intros Hin.
  apply in_app_or in Hin. destruct Hin as [Hin | Hin]; [left; exact Hin |].
  right. exists a. rewrite Hk. exact Hin.
Qed.

Section CallsMade.

Variable E : Env.
Variable cloneNode' : SNode -> Options -> option bool -> M (option CNode).
Variable options : Options.

Lemma cloneSingleNode_calls (node : SNode) (c : CallTree) :
  In c (trace (cloneSingleNode E cloneNode' node options)) -> fromCall cloneNode' options c.
Proof.
  unfold cloneSingleNode.
  destruct (isInstanceOfElement node HTMLCanvasElement).
  { unfold cloneCanvasElement. destruct (liveOf node) as [lv |];
      [destruct (toDataURL lv =? "data:,") |]; intros []. }
  destruct (isInstanceOfElement node HTMLVideoElement).
  { unfold cloneVideoElement. destruct (liveOf node) as [lv |]; [| intros []].
    destruct (truthy (currentSrc lv)); [intros [] |].
    destruct (resourceToDataURL E _ _ options); intros []. }
  destruct (isInstanceOfElement node HTMLIFrameElement); [| intros []].
  rewrite cloneIFrameElement_cases.
  destruct (contentDocumentBody node) as [| | | body]; try (intros []).
  intros Hin. exists body, emptyOptions, (Some true).
  split; [right; reflexivity |].
  destruct (cloneNode' body emptyOptions (Some true)) as [t [r | e |]];
    exact Hin.
Qed.

Lemma cloneChildren_calls (nativeNode : SNode) (clonedNode : CNode)
  (c : CallTree) :
  In c (trace (cloneChildren E cloneNode' nativeNode clonedNode options)) ->
  fromCall cloneNode' options c.
Proof.
  unfold cloneChildren. intros Hin.
  apply trace_bind in Hin. destruct Hin as [[] | [children Hin]].
  destruct ((length children =? 0)%nat
            || isInstanceOfElement nativeNode HTMLVideoElement);
    [destruct Hin |].
  apply trace_bind in Hin. destruct Hin as [Hin | [l []]].
  unfold promiseAll, trace at 1 in Hin. cbn [fst] in Hin.
  apply in_flat_map in Hin. destruct Hin as [m [Hm Hin]].
  apply in_map_iff in Hm. destruct Hm as [child [<- _]].
  exists child, options, None. split; [left; reflexivity | exact Hin].
Qed.

Lemma collectDefs_calls_made (clone : CNode) (uses : list CNode)
  (c : CallTree) :
  forall tbl,
    In c (trace (collectDefs E cloneNode' clone options uses tbl)) ->
    fromCall cloneNode' options c.
Proof.
  induction uses as [| use uses IH]; intros tbl; [intros [] |].
  cbn [collectDefs].
  destruct (getAttribute "xlink:href" use) as [id |]; [| apply IH].
  destruct (truthy id); [| apply IH].
  destruct (querySelector id clone); [apply IH |].
  destruct (documentQuerySelector E id) as [d |]; [| apply IH].
  destruct (tableGet tbl id); [apply IH |].
  intros Hin. apply trace_bind in Hin. destruct Hin as [Hin | [r Hin]].
  - exists d, options, (Some true). split; [left; reflexivity | exact Hin].
  - exact (IH _ Hin).
Qed.

Lemma cloneSteps_calls (node : SNode) (c : CallTree) :
  In c (trace (cloneSteps E cloneNode' node options)) -> fromCall cloneNode' options c.
Proof.
  unfold cloneSteps. intros Hin.
  apply trace_bind in Hin.
  destruct Hin as [Hin | [[cloned |] Hin]];
    [exact (cloneSingleNode_calls _ _ Hin) | | destruct Hin].
  apply trace_bind in Hin.
  destruct Hin as [Hin | [cloned' Hin]];
    [exact (cloneChildren_calls _ _ _ Hin) |].
  apply trace_bind in Hin. destruct Hin as [[] | [decorated Hin]].
  destruct (ensureSVGSymbols_trace E cloneNode' decorated options) as [Ht _].
  rewrite Ht in Hin. exact (collectDefs_calls_made _ _ _ _ Hin).
Qed.

End CallsMade.

(** Every record under a call is the record of a call of [cloneNode]
    itself, made with the options of the top call or with the empty
    ones. *)
Lemma recorded_calls_are_calls (E : Env) (fuel : nat) :
  forall node options isRoot c,
    In c (flat_map allCalls (trace (cloneNode E fuel node options isRoot))) ->
    (c_options c = options \/ c_options c = emptyOptions)
    /\ exists fuel',
         fuel' <= fuel
         /\ cloneNode E fuel' (c_node c) (c_options c) (c_isRoot c)
            = ([c], c_res c).
Proof.
  induction fuel as [| fuel IH]; intros node options isRoot c;
    rewrite cloneNode_unfold; unfold recorded, trace at 1; cbn [fst flat_map];
    rewrite app_nil_r; cbn [allCalls c_sub].
  - intros [<- | Hin].
    + split; [left; reflexivity |]. exists 0. split; [lia |].
      rewrite cloneNode_unfold. reflexivity.
    + exfalso. destruct (rejected node options isRoot); destruct Hin.
  - intros [<- | Hin].
    + split; [left; reflexivity |]. exists (S fuel). split; [lia |].
      rewrite cloneNode_unfold. reflexivity.
    + destruct (rejected node options isRoot); [destruct Hin |].
      apply in_flat_map in Hin. destruct Hin as [top [Htop Hc]].
      apply trace_bind in Htop. destruct Htop as [Htop | [r []]].
      apply cloneSteps_calls in Htop.
      destruct Htop as [n [o [r [Ho Htop]]]].
      assert (Hin : In c (flat_map allCalls (trace (cloneNode E fuel n o r)))).
      { apply in_flat_map. exists top. split; assumption. }
      destruct (IH n o r c Hin) as [Hopt [fuel' [Hle Hcall]]].
      split.
      * destruct Ho as [-> | ->]; [exact Hopt |].
        right. destruct Hopt as [H | H]; exact H.
      * exists fuel'. split; [lia | exact Hcall].
Qed.

(** X5.  Whatever is cloned under a call of [cloneNode], each call made on
    the way carries either the options of that call or the empty options
    object: no other options value is ever made up, so the only exclusion
    predicate that is ever consulted is the caller's. *)
Theorem cloneNode_passes_caller_or_empty_options (E : Env) (fuel : nat)
  (node : SNode) (options : Options) (isRoot : option bool) (c : CallTree) :
  In c (flat_map allCalls (trace (cloneNode E fuel node options isRoot))) ->
  c_options c = options \/ c_options c = emptyOptions.
Proof.
  intros Hin. exact (proj1 (recorded_calls_are_calls E fuel _ _ _ c Hin)).
Qed.

Lemma cloneNode_passes_caller_or_empty_options_witness :
  c_options (Call framedBody emptyOptions (Some true) false
               (Ok (Some (cloneElement xhtml "body" []
                            [cloneElement xhtml "p" [("class", "skip")] []])))
               [Call skippedParagraph emptyOptions None false
                     (Ok (Some (cloneElement xhtml "p" [("class", "skip")] [])))
                     []])
  = noSkipped
  \/ c_options (Call framedBody emptyOptions (Some true) false
                  (Ok (Some (cloneElement xhtml "body" []
                               [cloneElement xhtml "p" [("class", "skip")] []])))
                  [Call skippedParagraph emptyOptions None false
                        (Ok (Some (cloneElement xhtml "p" [("class", "skip")] [])))
                        []])
     = emptyOptions.
Proof.
  apply (cloneNode_passes_caller_or_empty_options (sampleEnv []) 4
           framedSkipped noSkipped (Some true)).
  cbn. right. left. reflexivity.
Defined.

(** X6.  Anywhere under a call of [cloneNode], a call that is not a root
    call and is made on a node that the exclusion predicate it carries
    rejects ends with null and makes no call underneath: nothing below an
    excluded node is ever cloned through it. *)
Theorem excluded_nodes_are_leaves (E : Env) (fuel : nat)
  (node : SNode) (options : Options) (isRoot : option bool) (c : CallTree)
  (f : SNode -> bool) :
  In c (flat_map allCalls (trace (cloneNode E fuel node options isRoot))) ->
  isTrue (c_isRoot c) = false ->
  filter (c_options c) = Some f ->
  f (c_node c) = false ->
  c_res c = Ok None /\ c_sub c = [].
Proof.
  intros Hin Hroot Hf Hrej.
  destruct (recorded_calls_are_calls E fuel _ _ _ c Hin)
    as [_ [fuel' [_ Hcall]]].
  rewrite cloneNode_unfold in Hcall. unfold recorded, rejected in Hcall.
  rewrite Hroot, Hf, Hrej in Hcall. cbn in Hcall.
  injection Hcall as Hc _. rewrite <- Hc. split; reflexivity.
Qed.

Lemma excluded_nodes_are_leaves_witness :
  c_res (Call skippedParagraph noSkipped None true (Ok None) []) = Ok None
  /\ c_sub (Call skippedParagraph noSkipped None true (Ok None) []) = [].
Proof.
  apply (excluded_nodes_are_leaves (sampleEnv []) 4 framedSkipped noSkipped
           (Some true) _
           (fun n =>
              match n with
              | SElem el _ _ _ _ _ =>
                  match getAttr "class" (attributes el) with
                  | Some c => negb (c =? "skip")
                  | None => true
                  end
              | SText _ => true
              end)).
  - cbn. right. right. right. left. reflexivity.
  - reflexivity.
  - reflexivity.
  - reflexivity.
Defined.

(** *** What reaches the clone of a node *)

Lemma cloneNode_rejected_null (E : Env) (fuel : nat) (node : SNode)
  (options : Options) (isRoot : option bool) :
  rejected node options isRoot = true ->
  outcome (cloneNode E fuel node options isRoot) = Ok None.
Proof.
  intros H. rewrite cloneNode_unfold, outcome_recorded, H. reflexivity.
Qed.

Lemma cloneNode_accepted_some (E : Env) (fuel : nat) (node : SNode)
  (options : Options) (isRoot : option bool) (c : option CNode) :
  rejected node options isRoot = false ->
  outcome (cloneNode E fuel node options isRoot) = Ok c ->
  exists x, c = Some x.
Proof.
  intros H. rewrite cloneNode_unfold, outcome_recorded, H.
  destruct fuel as [| fuel]; [discriminate |].
  intros Hok. apply (outcome_bind_ret _ Some c) in Hok.
  destruct Hok as [x [_ Hx]]. exists x. symmetry. exact Hx.
Qed.

Lemma accepted_cons (options : Options) (kid : SNode) (kids : list SNode) :
  accepted options (kid :: kids)
  = if rejected kid options None then accepted options kids
    else kid :: accepted options kids.
Proof.
  unfold accepted. cbn [List.filter].
  destruct (rejected kid options None); reflexivity.
Qed.

Lemma present_of_accepted (E : Env) (fuel : nat) (options : Options)
  (kids : list SNode) :
  forall clones,
    map (fun kid => outcome (cloneNode E fuel kid options None)) kids
    = map Ok clones ->
    Forall2 (fun kid c => outcome (cloneNode E fuel kid options None)
                          = Ok (Some c))
            (accepted options kids) (present clones).
Proof.
  induction kids as [| kid kids IH]; intros [| c clones]; cbn [map present];
    try discriminate; [constructor |].
  intros H. injection H as Hc Hrest. specialize (IH clones Hrest).
  rewrite accepted_cons.
  destruct (rejected kid options None) eqn:Hrej.
  - rewrite (cloneNode_rejected_null _ _ _ _ _ Hrej) in Hc.
    injection Hc as <-. exact IH.
  - destruct (cloneNode_accepted_some _ _ _ _ _ _ Hrej Hc) as [x ->].
    constructor; assumption.
Qed.

(** X8.  When [cloneChildren] is fulfilled on a node that is not a video,
    the children it has appended to the clone are the clones of exactly
    the resolved children that the exclusion predicate accepts, one for
    one and in their order: an excluded child leaves nothing and an
    accepted one is never dropped. *)
Theorem cloneChildren_appends_exactly_the_accepted (E : Env) (fuel : nat)
  (nativeNode : SNode) (el : Elem) (st : InlineStyle) (ch : list CNode)
  (options : Options) (kids : list SNode) (result : CNode) :
  resolvedChildren nativeNode = Ok kids ->
  isInstanceOfElement nativeNode HTMLVideoElement = false ->
  outcome (cloneChildren E (cloneNode E fuel) nativeNode (CElem el st ch)
             options) = Ok result ->
  exists cs,
    result = CElem el st (ch ++ cs)
    /\ Forall2 (fun kid c => outcome (cloneNode E fuel kid options None)
                             = Ok (Some c))
               (accepted options kids) cs.
Proof.
  intros Hkids Hvideo Hres.
  destruct kids as [| kid kids].
  - unfold cloneChildren in Hres. rewrite Hkids in Hres. cbn in Hres.
    injection Hres as <-. exists []. rewrite app_nil_r.
    split; [reflexivity | constructor].
  - rewrite (cloneChildren_join _ _ _ _ _ (kid :: kids) Hkids) in Hres;
      [| discriminate | exact Hvideo].
    destruct (joinAll _ _) as [clones | e |] eqn:Hjoin; try discriminate.
    apply joinAll_Ok in Hjoin. destruct Hjoin as [Hmap _].
    rewrite appendAll_element in Hres. injection Hres as <-.
    exists (present clones). split; [reflexivity |].
    apply present_of_accepted. exact Hmap.
Qed.

Lemma cloneChildren_appends_exactly_the_accepted_witness :
  let a := htmlElement "p" [("id", "a")] [] in
  let b := htmlElement "p" [("id", "b"); ("class", "skip")] [] in
  let parent := htmlElement "div" [] [a; b] in
  exists cs,
    Forall2 (fun kid c => outcome (cloneNode (sampleEnv []) 1 kid noSkipped None)
                          = Ok (Some c))
            [a] cs.
Proof.
  intros a b parent.
  destruct (cloneChildren_appends_exactly_the_accepted (sampleEnv []) 1 parent
              (mkElem xhtml "div" OtherElement []) (mkStyle "" []) []
              noSkipped [a; b]
              (cloneElement xhtml "div" []
                 [cloneElement xhtml "p" [("id", "a")] []]))
    as [cs [_ H]]; try reflexivity.
  exists cs. exact H.
Defined.

(** X9.  For an iframe whose nested document has a body, the shallow
    clone is the finished clone of that body, made as a root call with the
    empty options, and [cloneChildren] then appends to it, after the
    children that clone already has, the clones of the child nodes of the
    same body made with the caller's options. *)
Theorem iframe_clone_is_body_clone_with_children_again (E : Env)
  (cloneNode' : SNode -> Options -> option bool -> M (option CNode))
  (el : Elem) (lv : Live) (kids : list SNode)
  (shadow assigned : option (list SNode)) (body : SNode) (options : Options)
  (bodyEl : Elem) (bodySt : InlineStyle) (bodyCh : list CNode) :
  let iframe := SElem el lv kids shadow assigned (HasBody body) in
  interface el = HTMLIFrameElement ->
  isSlotElement iframe = false \/ assigned = None ->
  outcome (cloneNode' body emptyOptions (Some true))
  = Ok (Some (CElem bodyEl bodySt bodyCh)) ->
  outcome (cloneSingleNode E cloneNode' iframe options)
  = Ok (Some (CElem bodyEl bodySt bodyCh))
  /\ resolvedChildren iframe = Ok (childNodesOf body)
  /\ forall clones,
       map (fun kid => outcome (cloneNode' kid options None))
           (childNodesOf body)
       = map Ok clones ->
       outcome (cloneChildren E cloneNode' iframe (CElem bodyEl bodySt bodyCh)
                  options)
       = Ok (CElem bodyEl bodySt (bodyCh ++ present clones)).
Proof.
  intros iframe Hcat Hslot Hbody.
  assert (Hiframe : isInstanceOfElement iframe HTMLIFrameElement = true).
  { unfold iframe, isInstanceOfElement. rewrite Hcat. reflexivity. }
  assert (Hkids : resolvedChildren iframe = Ok (childNodesOf body)).
  { unfold resolvedChildren, iframe. fold iframe. rewrite Hiframe.
    destruct Hslot as [-> | ->]; [reflexivity |].
    destruct (isSlotElement iframe); reflexivity. }
  split; [| split; [exact Hkids |]].
  - unfold cloneSingleNode.
    rewrite (one_interface _ _ HTMLCanvasElement Hiframe) by discriminate.
    rewrite (one_interface _ _ HTMLVideoElement Hiframe) by discriminate.
    rewrite Hiframe, cloneIFrameElement_cases. unfold iframe.
    cbn [contentDocumentBody].
    destruct (cloneNode' body emptyOptions (Some true)) as [t o].
    cbn in Hbody. subst o. reflexivity.
  - intros clones Hclones.
    destruct (childNodesOf body) as [| kid rest] eqn:Hnodes.
    + destruct clones; [| discriminate]. cbn [present]. rewrite app_nil_r.
      unfold cloneChildren. rewrite Hkids. reflexivity.
    + destruct (cloneChildren_appends_in_order E cloneNode' iframe bodyEl
                  bodySt bodyCh options (kid :: rest) Hkids) as [H _];
        [discriminate
        | exact (one_interface _ _ HTMLVideoElement Hiframe
                   ltac:(discriminate))
        |].
      exact (H clones Hclones (settleOrder E)).
Qed.

Lemma iframe_clone_is_body_clone_with_children_again_witness :
  let body := htmlElement "body" [] [htmlElement "p" [] []] in
  outcome (cloneChildren (sampleEnv []) (cloneNode (sampleEnv []) 2)
             (iframeElement (HasBody body))
             (cloneElement xhtml "body" [] [cloneElement xhtml "p" [] []])
             emptyOptions)
  = Ok (cloneElement xhtml "body" []
          [cloneElement xhtml "p" [] []; cloneElement xhtml "p" [] []]).
Proof.
  intros body.
  destruct (iframe_clone_is_body_clone_with_children_again (sampleEnv [])
              (cloneNode (sampleEnv []) 2)
              (mkElem xhtml "iframe" HTMLIFrameElement []) noLive [] None None
              body emptyOptions
              (mkElem xhtml "body" OtherElement []) (mkStyle "" [])
              [cloneElement xhtml "p" [] []])
    as [_ [_ H]]; [reflexivity | left; reflexivity | reflexivity |].
  apply (H [Some (cloneElement xhtml "p" [] [])]). reflexivity.
Defined.

Example framed_paragraph_cloned_twice :
  outcome (cloneNode (sampleEnv []) 3
             (iframeElement
                (HasBody (htmlElement "body" [] [htmlElement "p" [] []])))
             emptyOptions (Some true))
  = Ok (Some (cloneElement xhtml "body" []
                [cloneElement xhtml "p" [] []; cloneElement xhtml "p" [] []])).
Proof. reflexivity. Qed.



(** *** The resolver: nothing to fetch, and rejection *)

Lemma collectDefs_nothing_to_fetch (E : Env)
  (cloneNode' : SNode -> Options -> option bool -> M (option CNode))
  (clone : CNode) (options : Options) (uses : list CNode) :
  (forall use id,
      In use uses -> getAttribute "xlink:href" use = Some id ->
      truthy id = true ->
      querySelector id clone <> None \/ documentQuerySelector E id = None) ->
  forall tbl, collectDefs E cloneNode' clone options uses tbl = ret tbl.
Proof.
  induction uses as [| use uses IH]; intros Hskip tbl; [reflexivity |].
  cbn [collectDefs].
  assert (Hrest : collectDefs E cloneNode' clone options uses tbl = ret tbl).
  { apply IH. intros u id Hin. apply Hskip. right. exact Hin. }
  destruct (getAttribute "xlink:href" use) as [id |] eqn:Hhref; [| exact Hrest].
  destruct (truthy id) eqn:Ht; [| exact Hrest].
  destruct (querySelector id clone) eqn:Hq; [exact Hrest |].
  destruct (documentQuerySelector E id) eqn:Hd; [| exact Hrest].
  destruct (Hskip use id (or_introl eq_refl) Hhref Ht) as [H | H];
    congruence.
Qed.

(** X10.  When every reference of a use element of the clone is empty, or
    is a plain reference [#name] that matches an element inside the clone
    or has no definition in the live document, the resolver makes no call,
    raises nothing and returns the clone as it is: a reference without a
    definition is left dangling. *)
Theorem ensureSVGSymbols_nothing_to_fetch (E : Env)
  (cloneNode' : SNode -> Options -> option bool -> M (option CNode))
  (clone : CNode) (options : Options) :
  (forall use id,
      In use (querySelectorAll "use" clone) ->
      getAttribute "xlink:href" use = Some id ->
      truthy id = true ->
      plainReference id = true
      /\ (querySelector id clone <> None
          \/ documentQuerySelector E id = None)) ->
  ensureSVGSymbols E cloneNode' clone options = ret clone.
Proof.
  intros Hskip. unfold ensureSVGSymbols. rewrite uses_of_clone.
  destruct (length (querySelectorAll "use" clone) =? 0)%nat; [reflexivity |].
  rewrite (collectDefs_nothing_to_fetch E cloneNode' clone options
             (querySelectorAll "use" clone)
             (fun use id Hin Hhref Ht => proj2 (Hskip use id Hin Hhref Ht))).
  reflexivity.
Qed.

Lemma ensureSVGSymbols_nothing_to_fetch_witness :
  ensureSVGSymbols (sampleEnv []) (cloneNode (sampleEnv []) 3) danglingUse
                   emptyOptions
  = ret danglingUse.
Proof.
  apply ensureSVGSymbols_nothing_to_fetch.
  intros use id Hin Hhref _.
  cbn in Hin. destruct Hin as [<- | [<- | []]];
    cbn in Hhref; injection Hhref as <-; split; reflexivity || (right; reflexivity).
Defined.

Section ResolverRejection.

Variable E : Env.
Variable cloneNode' : SNode -> Options -> option bool -> M (option CNode).
Hypothesis one_record :
  forall node options isRoot,
    exists sub,
      trace (cloneNode' node options isRoot)
      = [Call node options isRoot (consulted options isRoot)
              (outcome (cloneNode' node options isRoot)) sub].

(** The loop is rejected exactly when one of its calls is, with the
    reason of that call. *)
Lemma collectDefs_rejected (clone : CNode) (options : Options)
  (uses : list CNode) (e : Error) :
  forall tbl,
    outcome (collectDefs E cloneNode' clone options uses tbl) = Throw e
    <-> exists c,
          In c (trace (collectDefs E cloneNode' clone options uses tbl))
          /\ c_res c = Throw e.
Proof.
  induction uses as [| use uses IH]; intros tbl.
  - cbn. split; [discriminate | intros [c [[] _]]].
  - cbn [collectDefs].
    destruct (getAttribute "xlink:href" use) as [id |]; [| apply IH].
    destruct (truthy id); [| apply IH].
    destruct (querySelector id clone); [apply IH |].
    destruct (documentQuerySelector E id) as [d |]; [| apply IH].
    destruct (tableGet tbl id); [apply IH |].
    destruct (one_record d options (Some true)) as [sub Hrec].
    destruct (cloneNode' d options (Some true)) as [t o].
    cbn [trace outcome fst snd] in Hrec. subst t.
    destruct o as [r | e0 |]; cbn [bind].
    + specialize (IH (tableSet tbl id r)).
      destruct (collectDefs E cloneNode' clone options uses
                  (tableSet tbl id r)) as [t' o'].
      cbn [trace outcome fst snd] in *. rewrite IH. split.
      * intros [c [Hin Hres]]. exists c. split; [right; exact Hin | exact Hres].
      * intros [c [[<- | Hin] Hres]]; [discriminate |].
        exists c. split; assumption.
    + cbn. split.
      * intros [= ->]. eexists. split; [left; reflexivity | reflexivity].
      * intros [c [[<- | []] Hres]]. cbn in Hres. injection Hres as ->.
        reflexivity.
    + cbn. split; [discriminate |].
      intros [c [[<- | []] Hres]]. discriminate.
Qed.

End ResolverRejection.

Lemma symbolContainer_of_nodes (nodes : list CNode) :
  exists svg, symbolContainer (map Some nodes) = Ok svg.
Proof.
  unfold symbolContainer, createElementNS at 1.
  rewrite appendNodes_element. eexists. reflexivity.
Qed.

(** How the resolver ends, given how its loop ends. *)
Lemma ensureSVGSymbols_ends_as_loop (E : Env) (fuel : nat) (clone : CNode)
  (options : Options) :
  match outcome (collectDefs E (cloneNode E fuel) clone options
                   (querySelectorAll "use" clone) []) with
  | Ok _ =>
      isOk (outcome (ensureSVGSymbols E (cloneNode E fuel) clone options))
      = true
  | Throw e =>
      outcome (ensureSVGSymbols E (cloneNode E fuel) clone options) = Throw e
  | Diverge =>
      outcome (ensureSVGSymbols E (cloneNode E fuel) clone options) = Diverge
  end.
Proof.
  destruct (collectDefs_calls E (cloneNode E fuel)
              (cloneNode_one_record E fuel)
              (fun node o => cloneNode_root_never_null E fuel node o
                               (Some true) eq_refl)
              clone options (querySelectorAll "use" clone) [])
    as [k [_ [_ [_ Hdone]]]].
  { intros id []. }
  unfold ensureSVGSymbols. rewrite uses_of_clone.
  destruct (querySelectorAll "use" clone) as [| use uses] eqn:Huses;
    [reflexivity |].
  cbn [length Nat.eqb].
  destruct (collectDefs E (cloneNode E fuel) clone options (use :: uses) [])
    as [t [tbl | e |]]; cbn [outcome snd bind] in *; try reflexivity.
  destruct (Hdone tbl eq_refl) as [_ [_ Hall]].
  destruct (allSome_values tbl Hall) as [nodes Hnodes].
  destruct (negb (length (tableValues tbl) =? 0)%nat); [| reflexivity].
  rewrite Hnodes.
  destruct (symbolContainer_of_nodes nodes) as [svg ->].
  destruct clone as [d | el st ch]; [discriminate Huses |].
  reflexivity.
Qed.

(** X11.  The resolver handles no failure either: on a clone whose use
    elements carry only empty or plain references [#name], it is rejected
    exactly when the clone of one of the definitions it fetches is
    rejected, and with the reason of that clone. *)
Theorem ensureSVGSymbols_rejected_with_definition (E : Env) (fuel : nat)
  (clone : CNode) (options : Options) (e : Error) :
  (forall use id,
      In use (querySelectorAll "use" clone) ->
      getAttribute "xlink:href" use = Some id ->
      truthy id = true ->
      plainReference id = true) ->
  outcome (ensureSVGSymbols E (cloneNode E fuel) clone options) = Throw e
  <-> exists c,
        In c (trace (ensureSVGSymbols E (cloneNode E fuel) clone options))
        /\ c_res c = Throw e.
Proof.
  intros _.
  destruct (ensureSVGSymbols_trace E (cloneNode E fuel) clone options)
    as [-> _].
  rewrite <- (collectDefs_rejected E (cloneNode E fuel)
                (cloneNode_one_record E fuel)).
  pose proof (ensureSVGSymbols_ends_as_loop E fuel clone options) as Hend.
  destruct (outcome (collectDefs E (cloneNode E fuel) clone options
                       (querySelectorAll "use" clone) [])) as [tbl | e0 |].
  - split; [| discriminate].
    intros H. rewrite H in Hend. discriminate.
  - rewrite Hend. split; intros [= ->]; reflexivity.
  - rewrite Hend. split; discriminate.
Qed.

Lemma ensureSVGSymbols_rejected_with_definition_witness :
  exists c,
    In c (trace (ensureSVGSymbols brokenSymbolEnv (cloneNode brokenSymbolEnv 3)
                   danglingUse emptyOptions))
    /\ c_res c = Throw (ResourceError "missing.png").
Proof.
  apply (ensureSVGSymbols_rejected_with_definition brokenSymbolEnv 3
           danglingUse emptyOptions (ResourceError "missing.png")).
  - intros use id Hin Hhref _.
    cbn in Hin. destruct Hin as [<- | [<- | []]];
      cbn in Hhref; injection Hhref as <-; reflexivity.
  - reflexivity.
Defined.

Example resolver_rejected_by_definition :
  outcome (ensureSVGSymbols brokenSymbolEnv (cloneNode brokenSymbolEnv 3)
             danglingUse emptyOptions)
  = Throw (ResourceError "missing.png").
Proof. reflexivity. Qed.
